(** * Cost Tracker dashboard (streamlit_app.py): the data path

    A shallow embedding of [load_data], [process_data] and the table
    computations of [plot_data], with the properties of the data-shaping
    pipeline stated over it.

    Definitions:
    - [Py]: the Python values a parsed JSON file is made of, the exceptions
      the code can meet, and the operators the code applies to them
      (subscription, [+], [float], iteration);
    - [St]: what the page shows ([st.error], [st.warning]);
    - [Loader]: [load_data];
    - [Normalize]: [process_data], with the local variable [record], the
      three [except] clauses, and the frame built from the dictionaries
      ([pd.DataFrame], which gives each column one type);
    - [Frame]: the typed record set and the pandas operations of [plot_data]
      ([groupby(...).sum().reset_index()], [sort_values(ascending=False)],
      [head(10)], [Series.sum], [concat]); the tables are defined for any
      sort and any float sums the library may use, and once more with a
      sort and sums that can be evaluated;
    - [Spec], [FrameSpec], [Examples]: the specification's words, and the
      documents its properties are tried on;
    - [Extra], [Chart], [Main]: the rows of the users chart and [main],
      with the words their properties need.

    Then the facts ([FloatOrderFacts], [StringOrder], [FrameFacts],
    [TextFacts], [NormalizeFacts]), the properties of the specification
    ([NormalizeClaims], [FrameClaims]), and the further properties of the
    code ([NormalizeExtras], [FrameExtras], [MainExtras]). *)

From Stdlib Require Import ZArith List String Ascii Bool Lia.
From Stdlib Require Import Floats Sorting Permutation.
From Stdlib Require Import DecimalString DecimalPos DecimalZ.
Import ListNotations.

Local Open Scope string_scope.
Local Open Scope list_scope.
Local Open Scope Z_scope.

(* ================================================================== *)
(** ** Python values and operators *)

Module Py.

Set Warnings "-register-all".

(** A value as [json.load] builds it: [None], [bool], [int] (unbounded),
    [float] (binary64), [str], [list], and [dict] with [str] keys, kept in
    insertion order. *)
Inductive pyval : Type :=
| PNone
| PBool (b : bool)
| PInt (z : Z)
| PFloat (f : float)
| PStr (s : string)
| PList (items : list pyval)
| PDict (entries : list (string * pyval)).

(** The exceptions of this program.  All of them derive from [Exception];
    [JSONDecodeError] and [UnicodeDecodeError] derive from [ValueError];
    [UnboundLocalError] derives from [NameError]. *)
Inductive exn : Type :=
| KeyError (key : pyval)
| IndexError
| ValueError
| TypeError
| OverflowError
| UnboundLocalError (var : string)
| JSONDecodeError
| UnicodeDecodeError.

(** A computation that returns or raises. *)
Definition result (A : Type) : Type := (exn + A)%type.
Definition ret {A} (a : A) : result A := inr a.
Definition raise {A} (e : exn) : result A := inl e.
Definition bind {A B} (m : result A) (k : A -> result B) : result B :=
  match m with
  | inl e => inl e
  | inr a => k a
  end.

Notation "x <- m ;; k" := (bind m (fun x => k))
  (at level 61, m at next level, right associativity).

(** [isinstance(v, str)] *)
Definition is_str (v : pyval) : bool :=
  match v with PStr _ => true | _ => false end.

(** [v is None] *)
Definition is_none (v : pyval) : bool :=
  match v with PNone => true | _ => false end.

(** [bool] is a subclass of [int]: [True] is 1 and [False] is 0 wherever an
    integer is expected. *)
Definition as_index (v : pyval) : option Z :=
  match v with
  | PInt z => Some z
  | PBool b => Some (if b then 1 else 0)
  | _ => None
  end.

(** Lookup in a [dict] with [str] keys.  A [dict] holds each key once:
    the statements about a [dict] say so with [NoDup]. *)
Fixpoint dict_get (k : string) (d : list (string * pyval)) : option pyval :=
  match d with
  | [] => None
  | (k', v) :: d' => if String.eqb k k' then Some v else dict_get k d'
  end.

(** Sequence indexing: [-len <= i < len], negative indices count from the
    end; anything else is an [IndexError]. *)
Definition seq_index {A} (l : list A) (i : Z) : result A :=
  let n := Z.of_nat (List.length l) in
  let j := if i <? 0 then i + n else i in
  if (j <? 0) || (n <=? j) then raise IndexError
  else match nth_error l (Z.to_nat j) with
       | Some a => ret a
       | None => raise IndexError
       end.

(** A [str] is held as the bytes of its UTF-8 encoding.  [code] is the
    number of a byte; a byte from 128 to 191 continues a character. *)
Definition code (c : ascii) : Z := Z.of_nat (nat_of_ascii c).

Definition continuation (c : ascii) : option Z :=
  let n := code c in
  if (128 <=? n) && (n <? 192) then Some (n - 128) else None.

(** The characters of a [str], each a [str] of length one: a byte that
    does not continue a character starts one. *)
Definition chars (s : string) : list pyval :=
  let step c acc :=
    match continuation c with
    | Some _ => (String c (fst acc), snd acc)
    | None => (EmptyString, PStr (String c (fst acc)) :: snd acc)
    end in
  let (pending, done) := fold_right step (EmptyString, []) (list_ascii_of_string s) in
  match pending with
  | EmptyString => done
  | _ => PStr pending :: done
  end.

(** [obj[key]].
    - [dict]: the value under the key; a hashable key that is absent is a
      [KeyError] carrying the key (every key of a parsed JSON object is a
      [str], so no other key is ever present); a [list] or [dict] key is
      unhashable, a [TypeError];
    - [list] and [str]: an [int] (or [bool]) index, else [TypeError];
    - [None], [bool], [int], [float] are not subscriptable: [TypeError]. *)
Definition getitem (obj key : pyval) : result pyval :=
  match obj with
  | PDict d =>
      match key with
      | PStr k => match dict_get k d with
                  | Some v => ret v
                  | None => raise (KeyError key)
                  end
      | PList _ | PDict _ => raise TypeError
      | _ => raise (KeyError key)
      end
  | PList l =>
      match as_index key with
      | Some i => seq_index l i
      | None => raise TypeError
      end
  | PStr s =>
      match as_index key with
      | Some i => seq_index (chars s) i
      | None => raise TypeError
      end
  | _ => raise TypeError
  end.

(** [iter(obj)] as the [for] statement takes it: the keys of a [dict] in
    insertion order, the items of a [list], the characters of a [str];
    anything else is not iterable. *)
Definition iterate (obj : pyval) : result (list pyval) :=
  match obj with
  | PDict d => ret (map (fun kv => PStr (fst kv)) d)
  | PList l => ret l
  | PStr s => ret (chars s)
  | _ => raise TypeError
  end.

(** *** [float(s)] on a [str]

    The text is first brought to ASCII: a character below 127 stays, any
    other white-space character becomes a space, any other decimal digit
    becomes the ASCII digit of its value, and at any other character the
    text ends with a question mark, which no number holds.  Then the
    text is stripped of the surrounding tab, line feed, vertical tab, form
    feed, carriage return and space; then an optional sign, then [inf],
    [infinity] or [nan] in any letter case, or a decimal number: digits
    with an optional point and an optional exponent, where single
    underscores may separate digits.  The decimal value is rounded to the
    nearest binary64 number, ties to even; a value too large becomes an
    infinity.  Text of any other form is a [ValueError]. *)

(** The code points of a text, from its UTF-8 bytes; [None] when the bytes
    are no UTF-8 text. *)
Fixpoint code_points (l : list ascii) : option (list Z) :=
  match l with
  | [] => Some []
  | b0 :: l1 =>
      let n := code b0 in
      if n <? 128 then option_map (cons n) (code_points l1)
      else if n <? 194 then None
      else if n <? 224 then
        match l1 with
        | b1 :: l2 =>
            match continuation b1 with
            | Some x1 => option_map (cons ((n - 192) * 64 + x1)) (code_points l2)
            | None => None
            end
        | _ => None
        end
      else if n <? 240 then
        match l1 with
        | b1 :: b2 :: l3 =>
            match continuation b1, continuation b2 with
            | Some x1, Some x2 =>
                let cp := ((n - 224) * 64 + x1) * 64 + x2 in
                if cp <? 2048 then None
                else option_map (cons cp) (code_points l3)
            | _, _ => None
            end
        | _ => None
        end
      else if n <? 245 then
        match l1 with
        | b1 :: b2 :: b3 :: l4 =>
            match continuation b1, continuation b2, continuation b3 with
            | Some x1, Some x2, Some x3 =>
                let cp := (((n - 240) * 64 + x1) * 64 + x2) * 64 + x3 in
                if (cp <? 65536) || (1114111 <? cp) then None
                else option_map (cons cp) (code_points l4)
            | _, _, _ => None
            end
        | _ => None
        end
      else None
  end.

(** The white-space characters from 127 on ([str.isspace]). *)
Definition unicode_space (cp : Z) : bool :=
  existsb (Z.eqb cp) [133; 160; 5760; 8232; 8233; 8239; 8287; 12288]
  || (8192 <=? cp) && (cp <=? 8202).

(** The decimal digits ([unicodedata.decimal], Unicode 14): each script
    has its ten digits in a row, from zero on; the code points of the
    zeros. *)
Definition zeros : list Z :=
  [48; 1632; 1776; 1984; 2406; 2534; 2662; 2790; 2918; 3046; 3174; 3302;
   3430; 3558; 3664; 3792; 3872; 4160; 4240; 6112; 6160; 6470; 6608; 6784;
   6800; 6992; 7088; 7232; 7248; 42528; 43216; 43264; 43472; 43504; 43600;
   44016; 65296; 66720; 68912; 69734; 69872; 69942; 70096; 70384; 70736;
   70864; 71248; 71360; 71472; 71904; 72016; 72784; 73040; 73120; 92768;
   92864; 93008; 120782; 120792; 120802; 120812; 120822; 123200; 123632;
   125264; 130032].

Definition unicode_decimal (cp : Z) : option Z :=
  match find (fun z => (z <=? cp) && (cp <? z + 10)) zeros with
  | Some z => Some (cp - z)
  | None => None
  end.

Definition ascii_of_code (n : Z) : ascii := ascii_of_nat (Z.to_nat n).

Fixpoint ascii_form (cps : list Z) : list ascii :=
  match cps with
  | [] => []
  | cp :: rest =>
      if cp <? 127 then ascii_of_code cp :: ascii_form rest
      else if unicode_space cp then " "%char :: ascii_form rest
      else match unicode_decimal cp with
           | Some d => ascii_of_code (48 + d) :: ascii_form rest
           | None => ["?"%char]
           end
  end.

(** White space as the parser strips it. *)
Definition is_space (c : ascii) : bool :=
  let n := nat_of_ascii c in
  ((9 <=? n) && (n <=? 13) || (n =? 32))%nat.

Definition digit_of (c : ascii) : option Z :=
  let n := nat_of_ascii c in
  if ((48 <=? n) && (n <=? 57))%nat then Some (Z.of_nat n - 48) else None.

Definition lower (c : ascii) : ascii :=
  let n := nat_of_ascii c in
  if ((65 <=? n) && (n <=? 90))%nat then ascii_of_nat (n + 32) else c.

Fixpoint lstrip (l : list ascii) : list ascii :=
  match l with
  | c :: l' => if is_space c then lstrip l' else l
  | [] => []
  end.

Definition strip (l : list ascii) : list ascii :=
  rev (lstrip (rev (lstrip l))).

(** After a first digit: more digits, each optionally preceded by one
    underscore.  Returns the number read so far, how many digits were read,
    and the rest of the text. *)
Fixpoint more_digits (acc : Z) (count : Z) (l : list ascii)
  : Z * Z * list ascii :=
  match l with
  | c :: l' =>
      match digit_of c with
      | Some d => more_digits (10 * acc + d) (count + 1) l'
      | None =>
          if Ascii.eqb c "_" then
            match l' with
            | c' :: l'' =>
                match digit_of c' with
                | Some d => more_digits (10 * acc + d) (count + 1) l''
                | None => (acc, count, l)
                end
            | [] => (acc, count, l)
            end
          else (acc, count, l)
      end
  | [] => (acc, count, l)
  end.

(** [digitpart]: at least one digit.  [acc] is the number read before. *)
Definition digitpart (acc : Z) (l : list ascii)
  : option (Z * Z * list ascii) :=
  match l with
  | c :: l' =>
      match digit_of c with
      | Some d => Some (more_digits (10 * acc + d) 1 l')
      | None => None
      end
  | [] => None
  end.

Definition sign_of (l : list ascii) : bool * list ascii :=
  match l with
  | c :: l' =>
      if Ascii.eqb c "-" then (true, l')
      else if Ascii.eqb c "+" then (false, l')
      else (false, l)
  | [] => (false, l)
  end.

(** [number]: [[digitpart] "." digitpart | digitpart ["."]], as the pair
    of the digits read as one integer and the count of fraction digits. *)
Definition number (l : list ascii) : option (Z * Z * list ascii) :=
  match digitpart 0 l with
  | Some (m, _, rest) =>
      match rest with
      | c :: rest' =>
          if Ascii.eqb c "." then
            match digitpart m rest' with
            | Some (m', k, rest'') => Some (m', k, rest'')
            | None => Some (m, 0, rest')
            end
          else Some (m, 0, rest)
      | [] => Some (m, 0, rest)
      end
  | None =>
      match l with
      | c :: rest' =>
          if Ascii.eqb c "." then digitpart 0 rest' else None
      | [] => None
      end
  end.

(** [exponent]: [("e" | "E") [sign] digitpart], or nothing. *)
Definition exponent (l : list ascii) : option (Z * list ascii) :=
  match l with
  | [] => Some (0, [])
  | c :: l' =>
      if Ascii.eqb (lower c) "e" then
        let (neg, l'') := sign_of l' in
        match digitpart 0 l'' with
        | Some (e, _, rest) => Some (if neg then - e else e, rest)
        | None => None
        end
      else None
  end.

(** [m * 10^e10] for [m > 0], rounded to nearest, ties to even.  With a
    negative exponent the quotient is taken with 64 or more significant
    bits and one more bit that records a non-zero remainder, so the final
    rounding sees on which side of a tie the exact value lies. *)
Definition round_decimal (m e10 : Z) : spec_float :=
  if 0 <=? e10 then binary_normalize prec emax (m * 10 ^ e10) 0 false
  else
    let d := 10 ^ (- e10) in
    let s := Z.max 0 (Z.log2 d - Z.log2 m + 64) in
    let q := (m * 2 ^ s) / d in
    let sticky := if (m * 2 ^ s) mod d =? 0 then 0 else 1 in
    binary_normalize prec emax (2 * q + sticky) (- (s + 1)) false.

Definition decimal_to_float (neg : bool) (m e10 : Z) : float :=
  let f := if m =? 0 then PrimFloat.zero else SF2Prim (round_decimal m e10) in
  if neg then PrimFloat.opp f else f.

(** The number an ASCII text denotes. *)
Definition parse_float (text : list ascii) : result float :=
  let (neg, body) := sign_of (strip text) in
  let word := string_of_list_ascii (map lower body) in
  if String.eqb word "inf" || String.eqb word "infinity" then
    ret (if neg then PrimFloat.neg_infinity else PrimFloat.infinity)
  else if String.eqb word "nan" then ret PrimFloat.nan
  else
    match number body with
    | Some (m, k, rest) =>
        match exponent rest with
        | Some (e, []) => ret (decimal_to_float neg m (e - k))
        | _ => raise ValueError
        end
    | None => raise ValueError
    end.

Definition float_of_str (s : string) : result float :=
  match code_points (list_ascii_of_string s) with
  | Some cps => parse_float (ascii_form cps)
  | None => raise ValueError
  end.

(** *** [int] to [float]

    Rounded to nearest, ties to even; an [int] beyond the binary64 range
    is an [OverflowError]. *)
Definition float_of_int (z : Z) : result float :=
  match binary_normalize prec emax z 0 false with
  | S754_infinity _ => raise OverflowError
  | sf => ret (SF2Prim sf)
  end.

(** *** [a + b]

    [int + int] is exact; a [float] operand makes the sum a [float], the
    [int] operand being converted first; two [str] or two [list] operands
    concatenate; every other pair of these types is a [TypeError]. *)
Definition add (a b : pyval) : result pyval :=
  match a, b with
  | PFloat x, PFloat y => ret (PFloat (x + y)%float)
  | PFloat x, (PInt _ | PBool _) =>
      match as_index b with
      | Some z => y <- float_of_int z ;; ret (PFloat (x + y)%float)
      | None => raise TypeError
      end
  | (PInt _ | PBool _), PFloat y =>
      match as_index a with
      | Some z => x <- float_of_int z ;; ret (PFloat (x + y)%float)
      | None => raise TypeError
      end
  | (PInt _ | PBool _), (PInt _ | PBool _) =>
      match as_index a, as_index b with
      | Some x, Some y => ret (PInt (x + y))
      | _, _ => raise TypeError
      end
  | PStr x, PStr y => ret (PStr (String.append x y))
  | PList x, PList y => ret (PList (x ++ y))
  | _, _ => raise TypeError
  end.

End Py.

Import Py.

(* ================================================================== *)
(** ** What the page shows: the calls to [st.error] and [st.warning] *)

Module St.

Inductive call : Type :=
| error_invalid_json
    (** [st.error("Invalid JSON file. Please upload a valid JSON file.")] *)
| error_missing_key (e : exn) (record : pyval)
    (** [st.error(f"Missing key in record: {e}. Record: {record}")] *)
| error_invalid_value (record : pyval)
    (** [st.error(f"Invalid cost or token value in record: {record}")] *)
| error_occurred (record : pyval) (e : exn)
    (** [st.error(f"An error occurred processing record: {record}. Error: {e}")] *)
| warning_no_data
    (** [st.warning("No valid data found to process.")] *).

(** The error kinds of the specification, read off the message shown. *)
Inductive kind : Type := InvalidJson | MissingField | InvalidNumeric | Unexpected | NoData.

Definition kind_of (c : call) : kind :=
  match c with
  | error_invalid_json => InvalidJson
  | error_missing_key _ _ => MissingField
  | error_invalid_value _ => InvalidNumeric
  | error_occurred _ _ => Unexpected
  | warning_no_data => NoData
  end.

(** The record a message was formatted with. *)
Definition context_of (c : call) : option pyval :=
  match c with
  | error_missing_key _ r | error_invalid_value r | error_occurred r _ => Some r
  | _ => None
  end.

End St.

(* ================================================================== *)
(** ** [load_data] *)

Module Loader.

(** [json.load(file)] belongs to the standard library: what it did on the
    file, a value returned or an exception raised, is the argument here.
    Only [json.JSONDecodeError] is caught; the value is returned as it is,
    so a file holding [null] also gives [None]. *)
Definition load_data (json_load : result pyval) : result (pyval * list St.call) :=
  match json_load with
  | inr data => ret (data, [])
  | inl JSONDecodeError => ret (PNone, [St.error_invalid_json])
  | inl e => raise e
  end.

End Loader.

(* ================================================================== *)
(** ** [process_data] *)

Module Normalize.

(** One appended dictionary:
    [{"model": ..., "total_cost": ..., "user": ..., "total_tokens": ...}]. *)
Record row : Type := mk_row {
  model : pyval;
  total_cost : pyval;
  user : pyval;
  total_tokens : pyval
}.

(** The function's local state while the loop runs: the variable [record]
    (unbound until its first assignment, and keeping its value from one
    iteration to the next), the list [processed_data], and what was shown
    so far. *)
Record locals : Type := mk_locals {
  record : option pyval;
  processed_data : list row;
  shown : list St.call
}.

Definition initial : locals :=
  {| record := None; processed_data := []; shown := [] |}.

(** [data[user_email][0]] *)
Definition first_entry (data user_email : pyval) : result pyval :=
  entries <- getitem data user_email ;;
  getitem entries (PInt 0).

(** [if isinstance(cost, str): cost = float(cost)] *)
Definition ensure_float (cost : pyval) : result pyval :=
  match cost with
  | PStr s => f <- float_of_str s ;; ret (PFloat f)
  | _ => ret cost
  end.

(** Lines 57-73, once [record] is assigned. *)
Definition build_row (user_email rec : pyval) : result row :=
  model <- getitem rec (PStr "model") ;;
  cost <- getitem rec (PStr "total_cost") ;;
  cost <- ensure_float cost ;;
  input_tokens <- getitem rec (PStr "input_tokens") ;;
  output_tokens <- getitem rec (PStr "output_tokens") ;;
  total_tokens <- add input_tokens output_tokens ;;
  ret {| model := model; total_cost := cost;
         user := user_email; total_tokens := total_tokens |}.

(** The body of [try]: the state it leaves, and the exception if one was
    raised. *)
Definition try_body (data user_email : pyval) (st : locals)
  : locals * option exn :=
  match first_entry data user_email with
  | inl e => (st, Some e)
  | inr rec =>
      let st := {| record := Some rec;
                   processed_data := processed_data st;
                   shown := shown st |} in
      match build_row user_email rec with
      | inl e => (st, Some e)
      | inr r => ({| record := record st;
                     processed_data := processed_data st ++ [r];
                     shown := shown st |}, None)
      end
  end.

(** The three [except] clauses, tried in order.  Each formats its message
    with the variable [record]: reading it while it is unbound raises
    [UnboundLocalError] from inside the handler, which nothing catches. *)
Definition message (e : exn) (rec : pyval) : St.call :=
  match e with
  | KeyError _ => St.error_missing_key e rec
  | ValueError | JSONDecodeError | UnicodeDecodeError => St.error_invalid_value rec
  | _ => St.error_occurred rec e
  end.

Definition except (e : exn) (st : locals) : result locals :=
  match record st with
  | None => raise (UnboundLocalError "record")
  | Some rec =>
      ret {| record := record st;
             processed_data := processed_data st;
             shown := shown st ++ [message e rec] |}
  end.

(** One iteration of [for user_data in data]. *)
Definition iteration (data : pyval) (st : locals) (user_data : pyval)
  : result locals :=
  match try_body data user_data st with
  | (st', None) => ret st'
  | (st', Some e) => except e st'
  end.

(** The loop: an exception that leaves an iteration ends the function. *)
Fixpoint loop (data : pyval) (items : list pyval) (st : locals)
  : result locals :=
  match items with
  | [] => ret st
  | user_data :: rest =>
      st' <- iteration data st user_data ;;
      loop data rest st'
  end.

(** *** [pd.DataFrame(processed_data)]

    The frame is built from the list of dictionaries (pandas 2).  Its
    columns are the keys of the dictionaries, [model], [total_cost],
    [user], [total_tokens], and its rows are in the order of the list.
    Each column is scanned once and takes the narrowest type that holds
    all its values:
    - [bool] values only: a [bool] column;
    - [int] values only, all within [-2^63, 2^63) or all within
      [0, 2^64): an integer column (int64, uint64);
    - [float] values, with [int] or [None] values or without: a float64
      column, in which an [int] is converted and [None] is NaN; also
      [int] values beside [None] or NaN;
    - anything else, a [str], [list] or [dict] among it, a [bool] beside a
      number, or an [int] that 64 bits cannot hold: a column of objects,
      which keeps the values as they are.
    The values of a bool, integer or object column are the values given.
    The conversion of an [int] to float64 is rounded to nearest; an [int]
    beyond the binary64 range is outside what is modelled here and is left
    as it is. *)

Definition int64_min : Z := - 2 ^ 63.
Definition int64_max : Z := 2 ^ 63 - 1.
Definition uint64_max : Z := 2 ^ 64 - 1.

Definition in_int64 (z : Z) : bool := (int64_min <=? z) && (z <=? int64_max).

(** What the scan of a column has seen so far ([lib.maybe_convert_objects]);
    [object_] stops the scan. *)
Record Seen : Type := mk_seen {
  null_ : bool;
  nan_ : bool;
  bool_ : bool;
  float_ : bool;
  int_ : bool;
  uint_ : bool;
  sint_ : bool;
  object_ : bool
}.

Definition nothing_seen : Seen :=
  mk_seen false false false false false false false false.

Definition see (s : Seen) (v : pyval) : Seen :=
  if object_ s then s
  else
    match v with
    | PNone =>
        mk_seen true (nan_ s) (bool_ s) (float_ s) (int_ s) (uint_ s) (sint_ s) false
    | PFloat f =>
        if is_nan f
        then mk_seen (null_ s) true (bool_ s) (float_ s) (int_ s) (uint_ s) (sint_ s) false
        else mk_seen (null_ s) (nan_ s) (bool_ s) true (int_ s) (uint_ s) (sint_ s) false
    | PBool _ =>
        mk_seen (null_ s) (nan_ s) true (float_ s) (int_ s) (uint_ s) (sint_ s) false
    | PInt z =>
        if null_ s
        then mk_seen (null_ s) (nan_ s) (bool_ s) (float_ s) true (uint_ s) (sint_ s) false
        else
          let u := uint_ s || (int64_max <? z) && (z <=? uint64_max) in
          let g := sint_ s || (int64_min <=? z) && (z <? 0) in
          mk_seen (null_ s) (nan_ s) (bool_ s) (float_ s) true u g
            (u && g || (uint64_max <? z) || (z <? int64_min))
    | PStr _ | PList _ | PDict _ =>
        mk_seen (null_ s) (nan_ s) (bool_ s) (float_ s) (int_ s) (uint_ s) (sint_ s) true
    end.

(** A value in a float64 column. *)
Definition to_float (v : pyval) : pyval :=
  match v with
  | PNone => PFloat PrimFloat.nan
  | PInt z => match float_of_int z with
              | inr f => PFloat f
              | inl _ => v
              end
  | _ => v
  end.

Definition convert_column (col : list pyval) : list pyval :=
  let s := fold_left see col nothing_seen in
  if bool_ s then col
  else if object_ s then col
  else if null_ s || nan_ s then
    if float_ s || int_ s || nan_ s then map to_float col else col
  else if float_ s then map to_float col
  else col.

(** The [DataFrame] returned: its rows in order, under the columns
    [model], [total_cost], [user], [total_tokens]. *)
Definition DataFrame : Type := list row.

Definition DataFrame_of (dicts : list row) : DataFrame :=
  map (fun cells : pyval * pyval * pyval * pyval =>
         let '(m, c, u, t) := cells in
         {| model := m; total_cost := c; user := u; total_tokens := t |})
      (combine
         (combine
            (combine (convert_column (map model dicts))
                     (convert_column (map total_cost dicts)))
            (convert_column (map user dicts)))
         (convert_column (map total_tokens dicts))).

(** [process_data]: the frame and everything shown, or the exception that
    left the function. *)
Definition process_data (data : pyval) : result (DataFrame * list St.call) :=
  items <- iterate data ;;
  st <- loop data items initial ;;
  match processed_data st with
  | [] => ret ([], shown st ++ [St.warning_no_data])
  | dicts => ret (DataFrame_of dicts, shown st)
  end.

(** [main] from the loaded file on: [load_data], then [process_data]
    unless the data is [None]. *)
Definition load_and_process (json_load : result pyval)
  : result (option DataFrame * list St.call) :=
  loaded <- Loader.load_data json_load ;;
  let (data, shown1) := loaded in
  if is_none data then ret (None, shown1)
  else
    processed <- process_data data ;;
    let (frame, shown2) := processed in
    ret (Some frame, shown1 ++ shown2).

End Normalize.

(* ================================================================== *)
(** ** The record set and the tables of [plot_data] *)

Module Frame.

(** A row of the frame whose columns hold what the code means them to
    hold: [str] for [user] and [model], float64 for [total_cost], int64
    for [total_tokens]. *)
Record NormalizedRecord : Type := mk_record {
  user : string;
  model : string;
  total_cost : float;
  total_tokens : Z
}.

(** The rows of a frame built by [process_data], when every cell has the
    type of its column. *)
Definition typed (r : Normalize.row) : option NormalizedRecord :=
  match Normalize.user r, Normalize.model r,
        Normalize.total_cost r, Normalize.total_tokens r with
  | PStr u, PStr m, PFloat c, PInt t =>
      if Normalize.in_int64 t
      then Some {| user := u; model := m; total_cost := c; total_tokens := t |}
      else None
  | _, _, _, _ => None
  end.

Fixpoint typed_frame (rows : Normalize.DataFrame) : option (list NormalizedRecord) :=
  match rows with
  | [] => Some []
  | r :: rows' =>
      match typed r, typed_frame rows' with
      | Some t, Some ts => Some (t :: ts)
      | _, _ => None
      end
  end.

(** *** Column sums

    [sum()] adds the values of a column; an empty column sums to zero.
    An int64 column is summed in int64: a sum that leaves [-2^63, 2^63)
    wraps around.  A float64 column is summed skipping NaN, in an order
    and with intermediate roundings that are the library's own (a
    compensated sum within a group, a pairwise sum over a column), so the
    tables below take the float sums as arguments; [float_sum], the sum
    from left to right, is the one the examples are evaluated with, and
    agrees with any of them when the sums are exact. *)
Definition wrap64 (z : Z) : Z := (z + 2 ^ 63) mod 2 ^ 64 - 2 ^ 63.

Definition int_sum (l : list Z) : Z := fold_left (fun acc x => wrap64 (acc + x)) l 0.

Definition float_sum (l : list float) : float :=
  fold_left (fun acc x => if is_nan x then acc else (acc + x)%float) l 0%float.

(** *** [groupby(key)]

    The group keys come out sorted ascending ([sort=True] is the default),
    each once; a group holds its rows in their order in the frame. *)
Section GroupBy.
Context {A : Type} (key : A -> string).

Fixpoint insert_key (k : string) (ks : list string) : list string :=
  match ks with
  | [] => [k]
  | k' :: ks' =>
      match String.compare k k' with
      | Lt => k :: ks
      | Eq => ks
      | Gt => k' :: insert_key k ks'
      end
  end.

Definition group_keys (data : list A) : list string :=
  fold_right (fun r ks => insert_key (key r) ks) [] data.

Definition group (data : list A) (k : string) : list A :=
  filter (fun r => String.eqb (key r) k) data.

(** [data.groupby(key)[...].sum().reset_index()], with [agg] summing
    the selected columns of a group. *)
Definition groupby_sum {B : Type} (agg : list A -> B) (data : list A)
  : list (string * B) :=
  map (fun k => (k, agg (group data k))) (group_keys data).
End GroupBy.

(** *** [sort_values(by=..., ascending=False)]

    The library puts the rows whose key is NaN last and the others in
    descending order of the key; with its default algorithm it promises
    nothing about the order of rows with equal keys.  A [sorter] is any
    function that may stand for it; the statements about the order of the
    tables are made for every sorter that permutes its rows and leaves
    them in that order.  [sort_values] is one of them, the one the
    examples are evaluated with: it keeps rows with equal keys in the order
    they had. *)
Definition sorter : Type :=
  forall A K : Type, (A -> K) -> (K -> bool) -> (K -> K -> bool) -> list A -> list A.

Section SortValues.
Context {A K : Type} (by_ : A -> K) (isna : K -> bool) (leb : K -> K -> bool).

Fixpoint insert_desc (x : A) (l : list A) : list A :=
  match l with
  | [] => [x]
  | y :: l' => if leb (by_ y) (by_ x) then x :: l else y :: insert_desc x l'
  end.

Definition sort_desc (l : list A) : list A := fold_right insert_desc [] l.

Definition sort_values (l : list A) : list A :=
  sort_desc (filter (fun a => negb (isna (by_ a))) l)
    ++ filter (fun a => isna (by_ a)) l.
End SortValues.

Definition stable_sort : sorter := fun A K => @sort_values A K.

Definition no_na (_ : Z) : bool := false.

(** [.head(10)] *)
Definition head {A} (n : nat) (l : list A) : list A := firstn n l.

(** A row of the users table: [user], [total_cost], [total_tokens]. *)
Record UserRow : Type := mk_user_row {
  u_user : string;
  u_total_cost : float;
  u_total_tokens : Z
}.

(** *** The three tables of [plot_data]

    Given the library's sort, its float sum within a group and its float
    sum over a column. *)
Section Library.
Variable sort_by : sorter.
Variable group_sum : list float -> float.
Variable column_sum : list float -> float.

(** Lines 102-107: columns [model], [total_tokens]. *)
Definition models_tokens_with (data : list NormalizedRecord) : list (string * Z) :=
  head 10
    (sort_by _ _ snd no_na Z.leb
       (groupby_sum model (fun g => int_sum (map total_tokens g)) data)).

(** Lines 119-124: columns [model], [total_cost]. *)
Definition models_cost_with (data : list NormalizedRecord) : list (string * float) :=
  head 10
    (sort_by _ _ snd is_nan PrimFloat.leb
       (groupby_sum model (fun g => group_sum (map total_cost g)) data)).

(** Lines 137-142. *)
Definition users_sorted_with (data : list NormalizedRecord) : list UserRow :=
  sort_by _ _ u_total_cost is_nan PrimFloat.leb
    (map (fun kv => {| u_user := fst kv;
                       u_total_cost := fst (snd kv);
                       u_total_tokens := snd (snd kv) |})
       (groupby_sum user
          (fun g => (group_sum (map total_cost g), int_sum (map total_tokens g)))
          data)).

(** Lines 145-155. *)
Definition total_row_with (rows : list UserRow) : UserRow :=
  {| u_user := "Total";
     u_total_cost := column_sum (map u_total_cost rows);
     u_total_tokens := int_sum (map u_total_tokens rows) |}.

(** Line 158: [pd.concat([data_users, total_row], ignore_index=True)]. *)
Definition data_users_with (data : list NormalizedRecord) : list UserRow :=
  let rows := users_sorted_with data in
  rows ++ [total_row_with rows].

(** The tables [plot_data] computes, in the order it shows them. *)
Definition plot_data_with (data : list NormalizedRecord)
  : list (string * Z) * list (string * float) * list UserRow :=
  (models_tokens_with data, models_cost_with data, data_users_with data).
End Library.

(** The tables with the sort that keeps ties in place and the sums from
    left to right. *)
Definition data_models_tokens : list NormalizedRecord -> list (string * Z) :=
  models_tokens_with stable_sort.

Definition data_models_cost : list NormalizedRecord -> list (string * float) :=
  models_cost_with stable_sort float_sum.

Definition users_sorted : list NormalizedRecord -> list UserRow :=
  users_sorted_with stable_sort float_sum.

Definition total_row : list UserRow -> UserRow := total_row_with float_sum.

Definition data_users : list NormalizedRecord -> list UserRow :=
  data_users_with stable_sort float_sum float_sum.

Definition plot_data (data : list NormalizedRecord)
  : list (string * Z) * list (string * float) * list UserRow :=
  plot_data_with stable_sort float_sum float_sum data.

(** *** What a sorted table is

    [before]: [x] may stand before [y] in a column sorted descending with
    NaN last.  [tie]: neither key is below the other.  [tie_order Q]: rows
    that tie stand as [Q] says.  [key_lt]: the order of the group keys. *)
Section Order.
Context {A K : Type} (by_ : A -> K) (isna : K -> bool) (leb : K -> K -> bool).

Definition before (x y : A) : Prop :=
  isna (by_ y) = true \/
  (isna (by_ x) = false /\ leb (by_ y) (by_ x) = true).

Definition ge (x y : A) : Prop := leb (by_ y) (by_ x) = true.

Definition tie (x y : A) : Prop :=
  leb (by_ x) (by_ y) = true /\ leb (by_ y) (by_ x) = true.

Definition tie_order (Q : A -> A -> Prop) (x y : A) : Prop := tie x y -> Q x y.
End Order.

Definition key_lt (a b : string) : Prop := String.compare a b = Lt.

End Frame.

(* ================================================================== *)
(** ** Binary64 numbers in order *)

Module FloatOrder.

(** A non-NaN [spec_float] as a triple compared lexicographically. *)
Definition rank (x : spec_float) : Z * Z * Z :=
  match x with
  | S754_zero _ => (0, 0, 0)
  | S754_infinity s => (if s then -2 else 2, 0, 0)
  | S754_nan => (3, 0, 0)
  | S754_finite s m e => if s then (-1, - e, Zneg m) else (1, e, Zpos m)
  end.

Definition lex_le (p q : Z * Z * Z) : Prop :=
  let '(a1, b1, c1) := p in
  let '(a2, b2, c2) := q in
  a1 < a2 \/ (a1 = a2 /\ (b1 < b2 \/ (b1 = b2 /\ c1 <= c2))).

End FloatOrder.

(* ================================================================== *)
(** ** The specification's words about a document *)

Module Spec.
Import Normalize.

(** The four required fields of a usage entry. *)
Definition required : list string :=
  ["model"; "total_cost"; "input_tokens"; "output_tokens"].

Definition has_field (k : string) (e : list (string * pyval)) : bool :=
  match dict_get k e with Some _ => true | None => false end.

(** *** Text that denotes a number

    Said without the parser: the characters fall into classes, and a
    decimal number is what the automaton below accepts, after an optional
    sign: digits, where single underscores may stand between two digits,
    with an optional point before, within or after them, and an optional
    exponent.  White space is the six characters [white_space]. *)
Inductive char_class : Type := Digit | Underscore | Point | Exp | Plus | Minus | Other.

Definition class_of (c : ascii) : char_class :=
  if existsb (Ascii.eqb c) (list_ascii_of_string "0123456789") then Digit
  else if Ascii.eqb c "_" then Underscore
  else if Ascii.eqb c "." then Point
  else if Ascii.eqb c "e" || Ascii.eqb c "E" then Exp
  else if Ascii.eqb c "+" then Plus
  else if Ascii.eqb c "-" then Minus
  else Other.

Inductive state : Type :=
| Start          (** nothing read *)
| Signed         (** a sign *)
| IntDigits      (** digits *)
| IntSep         (** digits and an underscore *)
| PointFirst     (** a point, no digit before it *)
| PointAfter     (** digits and a point *)
| FracDigits     (** a point and digits after it *)
| FracSep
| ExpMark        (** the letter of the exponent *)
| ExpSigned
| ExpDigits
| ExpSep
| Dead.

Definition next (q : state) (k : char_class) : state :=
  match q, k with
  | Start, (Plus | Minus) => Signed
  | (Start | Signed), Digit => IntDigits
  | (Start | Signed), Point => PointFirst
  | IntDigits, Digit => IntDigits
  | IntDigits, Underscore => IntSep
  | IntDigits, Point => PointAfter
  | IntSep, Digit => IntDigits
  | (PointFirst | PointAfter | FracDigits | FracSep), Digit => FracDigits
  | FracDigits, Underscore => FracSep
  | (IntDigits | PointAfter | FracDigits), Exp => ExpMark
  | ExpMark, (Plus | Minus) => ExpSigned
  | (ExpMark | ExpSigned | ExpDigits | ExpSep), Digit => ExpDigits
  | ExpDigits, Underscore => ExpSep
  | _, _ => Dead
  end.

Definition final (q : state) : bool :=
  match q with
  | IntDigits | PointAfter | FracDigits | ExpDigits => true
  | _ => false
  end.

Definition run (q : state) (l : list ascii) : state :=
  fold_left (fun q c => next q (class_of c)) l q.

Definition decimal_text (l : list ascii) : bool := final (run Start l).

(** [inf], [infinity] and [nan], in any letter case, after an optional
    sign. *)
Definition upper_of (w : ascii) : ascii := ascii_of_nat (nat_of_ascii w - 32).

Fixpoint spells (w : list ascii) (l : list ascii) : bool :=
  match w, l with
  | [], [] => true
  | a :: w', c :: l' => (Ascii.eqb c a || Ascii.eqb c (upper_of a)) && spells w' l'
  | _, _ => false
  end.

Definition unsigned (l : list ascii) : list ascii :=
  match l with
  | c :: l' => if Ascii.eqb c "+" || Ascii.eqb c "-" then l' else l
  | [] => []
  end.

Definition special_text (l : list ascii) : bool :=
  existsb (fun w => spells (list_ascii_of_string w) (unsigned l))
    ["inf"; "infinity"; "nan"].

Definition white_space : list ascii :=
  map ascii_of_nat [9; 10; 11; 12; 13; 32]%nat.

Definition is_white (c : ascii) : bool := existsb (Ascii.eqb c) white_space.

Fixpoint drop_white (l : list ascii) : list ascii :=
  match l with
  | c :: l' => if is_white c then drop_white l' else l
  | [] => []
  end.

Definition trim (l : list ascii) : list ascii :=
  rev (drop_white (rev (drop_white l))).

(** A numeric string: its text, brought to ASCII as [float] does (white
    space and decimal digits of any script) and trimmed, is a decimal
    number or one of the special words. *)
Definition numeric_text (s : string) : bool :=
  match code_points (list_ascii_of_string s) with
  | Some cps =>
      let body := trim (ascii_form cps) in
      special_text body || decimal_text body
  | None => false
  end.

(** A cost that is numeric (a JSON number in the range of the frame) or a
    numeric string. *)
Definition numeric_cost (c : pyval) : bool :=
  match c with
  | PInt z => in_int64 z
  | PFloat _ => true
  | PStr s => numeric_text s
  | _ => false
  end.

(** A well-formed entry: the four fields, a model name, a numeric cost,
    integer token counts that are, with their sum, 64-bit integers. *)
Definition well_formed_entry (e : list (string * pyval)) : bool :=
  match dict_get "model" e, dict_get "total_cost" e,
        dict_get "input_tokens" e, dict_get "output_tokens" e with
  | Some (PStr _), Some c, Some (PInt i), Some (PInt o) =>
      numeric_cost c && in_int64 i && in_int64 o && in_int64 (i + o)
  | _, _, _, _ => false
  end.

(** An entry that misses a required field, or whose cost is a string that
    is not numeric. *)
Definition missing_field (e : list (string * pyval)) : bool :=
  existsb (fun k => negb (has_field k e)) required.

Definition unparsable_cost (e : list (string * pyval)) : bool :=
  match dict_get "total_cost" e with
  | Some (PStr s) => negb (numeric_text s)
  | _ => false
  end.

Definition malformed_entry (e : list (string * pyval)) : bool :=
  missing_field e || unparsable_cost e.

(** The first entry of a user's sequence, when there is one and it is a
    JSON object. *)
Definition first_of (entries : pyval) : option (list (string * pyval)) :=
  match entries with
  | PList (PDict e :: _) => Some e
  | _ => None
  end.

Definition on_first (p : list (string * pyval) -> bool) (uv : string * pyval) : bool :=
  match first_of (snd uv) with Some e => p e | None => false end.

Definition well_formed_user : string * pyval -> bool := on_first well_formed_entry.
Definition malformed_user : string * pyval -> bool := on_first malformed_entry.

(** [float(x)] on any value: the float coercion of the specification. *)
Definition float_coercion (c : pyval) : result float :=
  match c with
  | PFloat f => ret f
  | PInt z => float_of_int z
  | PBool b => ret (if b then 1%float else 0%float)
  | PStr s => float_of_str s
  | _ => raise TypeError
  end.

(** The cost as the loop records it: a string is coerced, a number is
    kept as it is. *)
Definition recorded_cost (c : pyval) : option pyval :=
  match c with
  | PFloat _ | PInt _ => Some c
  | PStr s => match float_of_str s with inr f => Some (PFloat f) | inl _ => None end
  | _ => None
  end.

(** The record of a user whose first entry is well formed. *)
Definition record_of (uv : string * pyval) : option row :=
  match first_of (snd uv) with
  | Some e =>
      match dict_get "model" e, dict_get "total_cost" e,
            dict_get "input_tokens" e, dict_get "output_tokens" e with
      | Some m, Some c, Some (PInt i), Some (PInt o) =>
          match recorded_cost c with
          | Some c' => Some {| model := m; total_cost := c';
                               user := PStr (fst uv); total_tokens := PInt (i + o) |}
          | None => None
          end
      | _, _, _, _ => None
      end
  | None => None
  end.

(** The records of the well-formed users of a document, in its order. *)
Definition records (d : list (string * pyval)) : list row :=
  flat_map (fun uv => match record_of uv with Some r => [r] | None => [] end)
           (filter well_formed_user d).

(** The cost column of the frame: integers when every cost is an [int],
    and otherwise float64, every [int] converted. *)
Definition is_int (v : pyval) : bool :=
  match v with PInt _ => true | _ => false end.

Definition as_float64 (c : pyval) : pyval :=
  match c with
  | PInt z => match float_of_int z with inr f => PFloat f | inl _ => c end
  | _ => c
  end.

Definition in_frame (recs : list row) : list row :=
  if forallb (fun r => is_int (total_cost r)) recs then recs
  else map (fun r => {| model := model r; total_cost := as_float64 (total_cost r);
                        user := user r; total_tokens := total_tokens r |}) recs.

(** A JSON number. *)
Definition is_number (v : pyval) : bool :=
  match v with PInt _ | PFloat _ => true | _ => false end.

(** What is shown after the loop: the warning when no row was produced. *)
Definition no_data (rows : list row) : list St.call :=
  match rows with [] => [St.warning_no_data] | _ => [] end.

(** The messages that report a record: every [st.error] of [process_data]. *)
Definition is_error (c : St.call) : bool :=
  match c with St.warning_no_data => false | _ => true end.

Definition errors (shown : list St.call) : list St.call := filter is_error shown.

End Spec.

(* ================================================================== *)
(** ** The specification's words about the tables *)

Module FrameSpec.
Import Frame.




(** The sum of integers, as a number. *)
Definition exact_sum (l : list Z) : Z := fold_right Z.add 0 l.

(** A number as a signed 64-bit integer holds it: itself when it lies in
    [-2^63, 2^63), and otherwise the number of that range that differs
    from it by a multiple of [2^64]. *)
Definition signed64 (z : Z) : Z :=
  let r := z mod 2 ^ 64 in
  if r <? 2 ^ 63 then r else r - 2 ^ 64.

(** The sum of a 64-bit column. *)
Definition sum64 (l : list Z) : Z := signed64 (exact_sum l).

(** What [sort_values(ascending=False)] promises: the same rows, in
    descending order of the key with NaN last, when the order of the keys
    is total and transitive.  Nothing is said of rows with equal keys. *)
Definition sorts (sort_by : sorter) : Prop :=
  forall (A K : Type) (by_ : A -> K) (isna : K -> bool) (leb : K -> K -> bool)
         (l : list A),
    Permutation l (sort_by A K by_ isna leb l) /\
    ((forall a b, isna a = false -> isna b = false ->
                  leb a b = true \/ leb b a = true) ->
     (forall a b c, leb a b = true -> leb b c = true -> leb a c = true) ->
     StronglySorted (before by_ isna leb) (sort_by A K by_ isna leb l)).






(** The records of the end-to-end example. *)
Definition two_records : list NormalizedRecord :=
  [ {| user := "a@x.com"; model := "gpt-4"; total_cost := 1.5; total_tokens := 150 |};
    {| user := "b@x.com"; model := "gpt-4"; total_cost := 2; total_tokens := 20 |} ].

End FrameSpec.

(* ================================================================== *)
(** ** Example documents *)

Module Examples.

Definition usage_entry (m c i o : pyval) : pyval :=
  PDict [("model", m); ("total_cost", c); ("input_tokens", i); ("output_tokens", o)].

(** [{"a@x.com": [{"model":"gpt-4","total_cost":"1.50","input_tokens":100,
     "output_tokens":50}], "b@x.com": [{"model":"gpt-4","total_cost":2.0,
     "input_tokens":10,"output_tokens":10}]}] *)
Definition two_users : list (string * pyval) :=
  [("a@x.com", PList [usage_entry (PStr "gpt-4") (PStr "1.50") (PInt 100) (PInt 50)]);
   ("b@x.com", PList [usage_entry (PStr "gpt-4") (PFloat 2) (PInt 10) (PInt 10)])].

(** [{"a@x.com": []}]: a user with an empty sequence of entries. *)
Definition empty_sequence : pyval := PDict [("a@x.com", PList [])].

(** The same user after one whose entry is read. *)
Definition empty_sequence_second : pyval :=
  PDict [("b@x.com", PList [usage_entry (PStr "gpt-4") (PFloat 2) (PInt 10) (PInt 10)]);
         ("a@x.com", PList [])].

(** [{"a@x.com": [{"model":"gpt-4","total_cost":2,"input_tokens":100,
     "output_tokens":50}]}]: the cost is a JSON integer. *)
Definition int_cost : list (string * pyval) :=
  [("a@x.com", PList [usage_entry (PStr "gpt-4") (PInt 2) (PInt 100) (PInt 50)])].

(** The same user, and a user whose cost is the JSON number 1.5. *)
Definition int_and_float_costs : list (string * pyval) :=
  [("a@x.com", PList [usage_entry (PStr "gpt-4") (PInt 2) (PInt 100) (PInt 50)]);
   ("b@x.com", PList [usage_entry (PStr "gpt-4") (PFloat 1.5) (PInt 10) (PInt 10)])].

(** One well-formed user between a user without [total_cost] and a user
    whose cost does not parse. *)
Definition mixed : list (string * pyval) :=
  [("a@x.com", PList [PDict [("model", PStr "gpt-4"); ("input_tokens", PInt 1);
                             ("output_tokens", PInt 2)]]);
   ("b@x.com", PList [usage_entry (PStr "gpt-4") (PFloat 2) (PInt 10) (PInt 10)]);
   ("c@x.com", PList [usage_entry (PStr "gpt-4") (PStr "n/a") (PInt 1) (PInt 2)])].

(** Token counts that are strings, and a token count that is [null]. *)
Definition string_tokens : pyval :=
  PDict [("a@x.com", PList [usage_entry (PStr "gpt-4") (PFloat 1) (PStr "5") (PStr "6")])].

Definition null_tokens : pyval :=
  PDict [("a@x.com", PList [usage_entry (PStr "gpt-4") (PFloat 1) PNone (PInt 6)])].

(** A cost that is [null]. *)
Definition null_cost : pyval :=
  PDict [("a@x.com", PList [usage_entry (PStr "gpt-4") PNone (PInt 100) (PInt 50)])].

End Examples.

(* ================================================================== *)
(** ** Order facts: binary64 comparison and string comparison *)

(** ** Further words: what stays of a document, and of a list *)

Module Extra.

(** [l1] holds some of the items of [l2], in the order they have there. *)
Inductive subseq {A : Type} : list A -> list A -> Prop :=
| subseq_nil : subseq [] []
| subseq_skip (x : A) (l1 l2 : list A) : subseq l1 l2 -> subseq l1 (x :: l2)
| subseq_keep (x : A) (l1 l2 : list A) : subseq l1 l2 -> subseq (x :: l1) (x :: l2).

(** A user's sequence cut down to its first entry. *)
Definition first_only (entries : pyval) : pyval :=
  match entries with
  | PList (first :: _) => PList [first]
  | _ => entries
  end.

Definition first_entries (d : list (string * pyval)) : list (string * pyval) :=
  map (fun kv => (fst kv, first_only (snd kv))) d.

(** The row of user [b@x.com] of the example documents. *)
Definition row_b : Normalize.row :=
  {| Normalize.model := PStr "gpt-4"; Normalize.total_cost := PFloat 2;
     Normalize.user := PStr "b@x.com"; Normalize.total_tokens := PInt 20 |}.

(** What [process_data] shows on [Examples.mixed]. *)
Definition mixed_shown : list St.call :=
  [St.error_missing_key (KeyError (PStr "total_cost"))
     (PDict [("model", PStr "gpt-4"); ("input_tokens", PInt 1);
             ("output_tokens", PInt 2)]);
   St.error_invalid_value
     (PDict [("model", PStr "gpt-4"); ("total_cost", PStr "n/a");
             ("input_tokens", PInt 1); ("output_tokens", PInt 2)])].

End Extra.

(* ================================================================== *)
(** ** The users chart *)

Module Chart.
Import Frame.

(** Lines 161-164: the rows handed to [px.bar] for the chart of cost per
    user, [data_users[data_users["user"] != "Total"]]. *)
Definition fig_users_rows (data : list NormalizedRecord) : list UserRow :=
  filter (fun r => negb (String.eqb (u_user r) "Total")) (data_users data).

(** A record set in which a user is named [Total]. *)
Definition user_named_total : list NormalizedRecord :=
  [ {| user := "Total"; model := "gpt-4"; total_cost := 1.5; total_tokens := 150 |};
    {| user := "b@x.com"; model := "gpt-4"; total_cost := 2; total_tokens := 20 |} ].

(** The same records as [FrameSpec.two_records], the other way round. *)
Definition two_records_swapped : list NormalizedRecord :=
  [ {| user := "b@x.com"; model := "gpt-4"; total_cost := 2; total_tokens := 20 |};
    {| user := "a@x.com"; model := "gpt-4"; total_cost := 1.5; total_tokens := 150 |} ].

End Chart.

(* ================================================================== *)
(** ** [main] *)

Module Main.

(** [str(n)] of an [int], as an f-string formats it: decimal digits, no
    padding, a minus sign before a negative number. *)
Definition str_of_int (z : Z) : string := NilZero.string_of_int (Z.to_int z).

(** [os.path.join("/data", f"costs-{year}-{month}.json")], the separator
    being [/]. *)
Definition path_of (year month : Z) : string :=
  String.append "/data/"
    (String.append "costs-"
       (String.append (str_of_int year)
          (String.append "-" (String.append (str_of_int month) ".json")))).

(** What a run of [main] does on the page, in order. *)
Inductive event : Type :=
| title                              (** [st.title("Cost Tracker for Open WebUI")] *)
| divider                            (** [st.divider()] *)
| info_intro                         (** [st.info("This Streamlit app ...")] *)
| info_missing (path : string)       (** [st.info(f"File {path} does not exist.")] *)
| shown_by (c : St.call)             (** a message of [load_data] or [process_data] *)
| plot_data_on (frame : Normalize.DataFrame)  (** [plot_data(processed_data)] *).

(** [main], given what its surroundings answer: the month chosen in
    [st.number_input] (0 to 12, 0 at first), the year of the clock,
    [os.path.exists], and what [json.load] does on the file at a path. *)
Definition main (month year : Z) (path_exists : string -> bool)
  (json_load : string -> result pyval) : result (list event) :=
  let start := [title; divider; info_intro] in
  if month =? 0 then ret start
  else
    let path := path_of year month in
    if negb (path_exists path) then ret (start ++ [info_missing path])
    else
      loaded <- Loader.load_data (json_load path) ;;
      let (data, shown1) := loaded in
      if is_none data then ret (start ++ map shown_by shown1)
      else
        processed <- Normalize.process_data data ;;
        let (frame, shown2) := processed in
        ret (start ++ map shown_by shown1 ++ map shown_by shown2
               ++ [plot_data_on frame]).

(** Whether a character occurs in a string. *)
Fixpoint has_char (c : ascii) (s : string) : bool :=
  match s with
  | EmptyString => false
  | String a s' => Ascii.eqb a c || has_char c s'
  end.

(** A file system that holds the March 2024 file, with the example
    document in it. *)
Definition only_march (path : string) : bool := String.eqb path "/data/costs-2024-3.json".
Definition march_document (path : string) : result pyval :=
  if String.eqb path "/data/costs-2024-3.json" then ret (PDict Examples.two_users)
  else raise JSONDecodeError.

End Main.

(* ================================================================== *)
Module PyExamples.

Set Warnings "-inexact-float".

(** [float] on strings, against the literals of the prover, which are
    rounded to nearest too. *)
Example float_of_str_decimal :
  map float_of_str ["1.50"; " 2.0 "; "-1_000.5e-3"; ".5"; "5."; "1e23"; "0.1"] =
  map inr [1.5; 2; -1.0005; 0.5; 5; 1e23; 0.1]%float.
Proof. vm_compute. reflexivity. Qed.

Example float_of_str_special :
  map float_of_str ["inf"; "-Infinity"; "NaN"; "1e309"] =
  map inr [infinity; neg_infinity; nan; infinity].
Proof. vm_compute. reflexivity. Qed.

Example float_of_str_rejects :
  map float_of_str ["n/a"; ""; "."; "1e"; "1_.5"; "1__0"; "0x10"; "1 2"; "--1"] =
  map (fun _ => inl ValueError) (seq 0 9).
Proof. vm_compute. reflexivity. Qed.

(** White space and digits: the separators from 28 to 31 are not
    stripped; a no-break space is; the digits of any script count. *)
Example float_of_str_unicode :
  float_of_str (String (ascii_of_nat 28) "1.5") = inl ValueError /\
  float_of_str (String.append "1.5" (String (ascii_of_nat 11) "")) = inr 1.5%float /\
  float_of_str "１２" = inr 12%float /\
  float_of_str (String (ascii_of_nat 194) (String (ascii_of_nat 160) "1.5")) =
    inr 1.5%float /\
  float_of_str "١٢.٥" = inr 12.5%float /\
  float_of_str "1．5" = inl ValueError.
Proof. repeat split; vm_compute; reflexivity. Qed.

(** Subscription and [+] on the values the loop can meet. *)
Example getitem_cases :
  getitem (PList []) (PInt 0) = inl IndexError /\
  getitem (PList [PInt 7; PInt 8]) (PInt (-1)) = inr (PInt 8) /\
  getitem (PDict [("0", PInt 7)]) (PInt 0) = inl (KeyError (PInt 0)) /\
  getitem (PStr "ab") (PStr "a") = inl TypeError /\
  getitem PNone (PInt 0) = inl TypeError /\
  getitem (PInt 5) (PStr "model") = inl TypeError.
Proof. repeat split; reflexivity. Qed.

Example add_cases :
  add (PInt 100) (PInt 50) = inr (PInt 150) /\
  add (PStr "5") (PStr "6") = inr (PStr "56") /\
  add (PInt 1) (PFloat 0.5) = inr (PFloat 1.5) /\
  add PNone (PInt 6) = inl TypeError /\
  add (PStr "5") (PInt 6) = inl TypeError /\
  add (PInt (2 ^ 1024)) (PFloat 0.5) = inl OverflowError.
Proof. repeat split; vm_compute; reflexivity. Qed.

Set Warnings "inexact-float".

End PyExamples.

Module FloatOrderFacts.
Import FloatOrder.

Lemma SFleb_rank (x y : spec_float) :
  x <> S754_nan -> y <> S754_nan ->
  SFleb x y = true <-> lex_le (rank x) (rank y).
Proof.
  intros Hx Hy.
  destruct x as [sx|sx| |sx mx ex], y as [sy|sy| |sy my ey];
    try congruence; unfold SFleb, SFcompare, lex_le, rank;
    try (destruct sx); try (destruct sy);
    try (destruct (Z.compare_spec ex ey));
    try (rewrite Pos.compare_cont_spec; cbn [Pos.switch_Eq];
         destruct (Pos.compare_spec mx my));
    cbn [CompOpp]; split; intros; try reflexivity; try discriminate; try lia.
Qed.

Lemma SFleb_nan_r x : SFleb x S754_nan = false.
Proof. destruct x; reflexivity. Qed.

Lemma is_nan_spec (a : float) : is_nan a = false <-> Prim2SF a <> S754_nan.
Proof.
  unfold is_nan. rewrite eqb_spec.
  destruct (Prim2SF a) as [s|s| |s m e]; cbn;
    try (split; [congruence | reflexivity]).
  - destruct s; split; intros; try congruence; reflexivity.
  - split; intros; congruence.
  - unfold SFeqb, SFcompare.
    destruct s; rewrite Z.compare_refl, Pos.compare_cont_refl;
      split; intros; try congruence; reflexivity.
Qed.

Lemma leb_total (a b : float) :
  is_nan a = false -> is_nan b = false ->
  (a <=? b)%float = true \/ (b <=? a)%float = true.
Proof.
  rewrite !is_nan_spec, !leb_spec. intros Ha Hb.
  rewrite !SFleb_rank by assumption.
  destruct (rank (Prim2SF a)) as [[a1 b1] c1], (rank (Prim2SF b)) as [[a2 b2] c2].
  unfold lex_le. lia.
Qed.

Lemma leb_not_nan (a b : float) :
  (a <=? b)%float = true -> is_nan a = false /\ is_nan b = false.
Proof.
  rewrite !is_nan_spec, leb_spec. intros H; split; intros E; rewrite E in H.
  - discriminate.
  - rewrite SFleb_nan_r in H. discriminate.
Qed.

Lemma leb_trans (a b c : float) :
  (a <=? b)%float = true -> (b <=? c)%float = true -> (a <=? c)%float = true.
Proof.
  intros Hab Hbc.
  destruct (leb_not_nan _ _ Hab) as [Ha Hb], (leb_not_nan _ _ Hbc) as [_ Hc].
  rewrite is_nan_spec in Ha, Hb, Hc. rewrite leb_spec in *.
  rewrite SFleb_rank in * by assumption.
  destruct (rank (Prim2SF a)) as [[a1 b1] c1], (rank (Prim2SF b)) as [[a2 b2] c2],
    (rank (Prim2SF c)) as [[a3 b3] c3].
  unfold lex_le in *. lia.
Qed.

End FloatOrderFacts.

Module StringOrder.

Lemma ascii_compare_lt_trans (a b c : ascii) :
  Ascii.compare a b = Lt -> Ascii.compare b c = Lt -> Ascii.compare a c = Lt.
Proof.
  unfold Ascii.compare. rewrite !N.compare_lt_iff. lia.
Qed.

Lemma compare_refl (s : string) : String.compare s s = Eq.
Proof.
  induction s as [|a s IH]; cbn; [reflexivity|].
  unfold Ascii.compare. now rewrite N.compare_refl.
Qed.

Lemma compare_lt_trans (s1 s2 s3 : string) :
  String.compare s1 s2 = Lt -> String.compare s2 s3 = Lt ->
  String.compare s1 s3 = Lt.
Proof.
  revert s2 s3.
  induction s1 as [|a s1 IH]; intros [|b s2] [|c s3]; cbn; try congruence.
  destruct (Ascii.compare a b) eqn:Eab; try discriminate;
    destruct (Ascii.compare b c) eqn:Ebc; try discriminate; intros H12 H23.
  - apply Ascii.compare_eq_iff in Eab, Ebc. subst.
    unfold Ascii.compare. rewrite N.compare_refl. eauto.
  - apply Ascii.compare_eq_iff in Eab. subst. now rewrite Ebc.
  - apply Ascii.compare_eq_iff in Ebc. subst. now rewrite Eab.
  - now rewrite (ascii_compare_lt_trans _ _ _ Eab Ebc).
Qed.

Lemma compare_gt_lt (s1 s2 : string) :
  String.compare s1 s2 = Gt -> String.compare s2 s1 = Lt.
Proof.
  intros H. rewrite String.compare_antisym, H. reflexivity.
Qed.

End StringOrder.

(* ================================================================== *)
(** ** Facts about the pandas operations *)

Module FrameFacts.
Import Frame FrameSpec.

(** *** Lists *)

Lemma filter_split_perm {A} (p : A -> bool) (l : list A) :
  Permutation l (filter (fun a => negb (p a)) l ++ filter p l).
Proof.
  induction l as [|a l IH]; cbn; [constructor|].
  destruct (p a); cbn.
  - now apply Permutation_cons_app.
  - now constructor.
Qed.

Lemma strongly_sorted_app {A} (R : A -> A -> Prop) (l1 l2 : list A) :
  StronglySorted R l1 -> StronglySorted R l2 ->
  (forall x y, In x l1 -> In y l2 -> R x y) ->
  StronglySorted R (l1 ++ l2).
Proof.
  induction 1 as [|a l1 Hs IH Ha]; intros H2 Hx; cbn; [assumption|].
  constructor.
  - apply IH; [assumption|]. intros x y Hin. apply Hx. now right.
  - apply Forall_app. split; [assumption|].
    apply Forall_forall. intros y Hy. apply Hx; [now left | assumption].
Qed.


Lemma strongly_sorted_filter {A} (R : A -> A -> Prop) (p : A -> bool) (l : list A) :
  StronglySorted R l -> StronglySorted R (filter p l).
Proof.
  induction 1 as [|a l Hs IH Ha]; cbn; [constructor|].
  destruct (p a); [|assumption].
  constructor; [assumption|].
  rewrite Forall_forall in *. intros y Hy.
  apply filter_In in Hy. now apply Ha.
Qed.

Lemma strongly_sorted_map {A B} (R : B -> B -> Prop) (f : A -> B) (l : list A) :
  StronglySorted (fun x y => R (f x) (f y)) l -> StronglySorted R (map f l).
Proof.
  induction 1 as [|a l Hs IH Ha]; cbn; constructor; [assumption|].
  rewrite Forall_forall in *. intros y Hy.
  apply in_map_iff in Hy. destruct Hy as (x & <- & Hx). now apply Ha.
Qed.

Lemma strongly_sorted_all {A} (R : A -> A -> Prop) (l : list A) :
  (forall x y, In x l -> In y l -> R x y) -> StronglySorted R l.
Proof.
  induction l as [|a l IH]; intros H; constructor.
  - apply IH. intros x y Hx Hy. apply H; now right.
  - apply Forall_forall. intros y Hy. apply H; [now left | now right].
Qed.

Lemma strongly_sorted_weaken {A} (R R' : A -> A -> Prop) (l : list A) :
  (forall x y, In x l -> In y l -> R x y -> R' x y) ->
  StronglySorted R l -> StronglySorted R' l.
Proof.
  intros HR H. induction H as [|a l Hs IH Ha]; constructor.
  - apply IH. intros x y Hx Hy. apply HR; now right.
  - rewrite Forall_forall in *. intros y Hy.
    apply HR; [now left | now right | now apply Ha].
Qed.

(** *** [sort_values] *)

Section SortFacts.
Context {A K : Type} (by_ : A -> K) (isna : K -> bool) (leb : K -> K -> bool).

Lemma insert_desc_perm (x : A) (l : list A) :
  Permutation (x :: l) (insert_desc by_ leb x l).
Proof.
  induction l as [|y l IH]; cbn; [reflexivity|].
  destruct (leb (by_ y) (by_ x)); [reflexivity|].
  rewrite perm_swap. now constructor.
Qed.

Lemma sort_desc_cons (x : A) (l : list A) :
  sort_desc by_ leb (x :: l) = insert_desc by_ leb x (sort_desc by_ leb l).
Proof. reflexivity. Qed.

Lemma sort_desc_perm (l : list A) : Permutation l (sort_desc by_ leb l).
Proof.
  induction l as [|x l IH]; [constructor|].
  rewrite sort_desc_cons, <- insert_desc_perm. now constructor.
Qed.

Lemma sort_values_perm (l : list A) :
  Permutation l (sort_values by_ isna leb l).
Proof.
  unfold sort_values. rewrite <- sort_desc_perm. apply filter_split_perm.
Qed.

(** Rows that tie keep the order they had: any relation that held from
    each row to the tying rows after it still holds after the sort. *)
Section Stability.
Variable Q : A -> A -> Prop.

Lemma insert_desc_ties (x : A) (l : list A) :
  Forall (tie_order by_ leb Q x) l -> StronglySorted (tie_order by_ leb Q) l ->
  StronglySorted (tie_order by_ leb Q) (insert_desc by_ leb x l).
Proof.
  intros Hx Hs. induction Hs as [|y l Hs IH Hy]; cbn.
  - repeat constructor.
  - destruct (leb (by_ y) (by_ x)) eqn:E.
    + constructor; [now constructor | assumption].
    + inversion Hx; subst. constructor; [now apply IH|].
      rewrite <- insert_desc_perm. constructor; [|assumption].
      intros [H _]. congruence.
Qed.

Lemma sort_desc_ties (l : list A) :
  StronglySorted (tie_order by_ leb Q) l -> StronglySorted (tie_order by_ leb Q) (sort_desc by_ leb l).
Proof.
  induction 1 as [|x l Hs IH Hx]; [constructor|].
  rewrite sort_desc_cons. apply insert_desc_ties; [|assumption].
  now rewrite <- sort_desc_perm.
Qed.

Hypothesis na_no_tie : forall x y, isna (by_ x) = true -> ~ tie by_ leb x y.

Lemma sort_values_ties (l : list A) :
  StronglySorted (tie_order by_ leb Q) l ->
  StronglySorted (tie_order by_ leb Q) (sort_values by_ isna leb l).
Proof.
  intros H. apply strongly_sorted_app.
  - apply sort_desc_ties. now apply strongly_sorted_filter.
  - now apply strongly_sorted_filter.
  - intros x y _ Hy [Hxy Hyx].
    apply filter_In in Hy. destruct Hy as [_ Hy].
    exfalso. apply (na_no_tie y x Hy). now split.
Qed.
End Stability.

(** The order: total and transitive on the keys that are not NaN. *)
Hypothesis leb_total : forall a b,
  isna a = false -> isna b = false -> leb a b = true \/ leb b a = true.
Hypothesis leb_trans : forall a b c,
  leb a b = true -> leb b c = true -> leb a c = true.

Lemma insert_desc_sorted (x : A) (l : list A) :
  isna (by_ x) = false -> Forall (fun y => isna (by_ y) = false) l ->
  StronglySorted (ge by_ leb) l -> StronglySorted (ge by_ leb) (insert_desc by_ leb x l).
Proof.
  intros Hx Hna Hs. induction Hs as [|y l Hs IH Hy]; cbn.
  - repeat constructor.
  - inversion Hna as [|? ? Hy_na Hl_na]; subst.
    destruct (leb (by_ y) (by_ x)) eqn:E.
    + constructor; [now constructor|].
      constructor; [exact E|].
      rewrite Forall_forall in *. intros z Hz.
      unfold ge. eapply leb_trans; [apply Hy, Hz | exact E].
    + constructor; [now apply IH|].
      rewrite <- insert_desc_perm. constructor; [|assumption].
      destruct (leb_total (by_ x) (by_ y) Hx Hy_na) as [H|H]; [exact H|congruence].
Qed.

Lemma sort_desc_sorted (l : list A) :
  Forall (fun y => isna (by_ y) = false) l ->
  StronglySorted (ge by_ leb) (sort_desc by_ leb l).
Proof.
  induction 1 as [|x l Hx Hl IH]; [constructor|].
  rewrite sort_desc_cons. apply insert_desc_sorted; [assumption| |assumption].
  now rewrite <- sort_desc_perm.
Qed.

Lemma sort_values_sorted (l : list A) :
  StronglySorted (before by_ isna leb) (sort_values by_ isna leb l).
Proof.
  assert (Hna : Forall (fun y => isna (by_ y) = false)
                  (filter (fun a => negb (isna (by_ a))) l)).
  { apply Forall_forall. intros y Hy. apply filter_In in Hy.
    destruct Hy as [_ Hy]. now apply negb_true_iff in Hy. }
  apply strongly_sorted_app.
  - apply strongly_sorted_weaken with (R := ge by_ leb).
    + intros x y Hx _ Hxy. right. split; [|exact Hxy].
      rewrite <- sort_desc_perm in Hx. rewrite Forall_forall in Hna. now apply Hna.
    + now apply sort_desc_sorted.
  - apply strongly_sorted_all. intros x y _ Hy. left.
    apply filter_In in Hy. tauto.
  - intros x y _ Hy. left. apply filter_In in Hy. tauto.
Qed.

End SortFacts.

(** *** [groupby] *)

Lemma insert_key_in (k k' : string) (ks : list string) :
  In k' (insert_key k ks) <-> k' = k \/ In k' ks.
Proof.
  induction ks as [|a ks IH]; cbn; [intuition congruence|].
  destruct (String.compare k a) eqn:E; cbn.
  - apply String.compare_eq_iff in E. subst. intuition congruence.
  - intuition congruence.
  - rewrite IH. intuition congruence.
Qed.

Lemma insert_key_sorted (k : string) (ks : list string) :
  StronglySorted key_lt ks -> StronglySorted key_lt (insert_key k ks).
Proof.
  induction 1 as [|a ks Hs IH Ha]; cbn; [repeat constructor|].
  destruct (String.compare k a) eqn:E.
  - now constructor.
  - constructor; [now constructor|].
    constructor; [exact E|].
    rewrite Forall_forall in *. intros b Hb.
    eapply StringOrder.compare_lt_trans; [exact E | now apply Ha].
  - constructor; [assumption|].
    apply Forall_forall. intros b Hb.
    apply insert_key_in in Hb. destruct Hb as [->|Hb].
    + now apply StringOrder.compare_gt_lt.
    + rewrite Forall_forall in Ha. now apply Ha.
Qed.

Section GroupFacts.
Context {A : Type} (key : A -> string).

Lemma group_keys_in (data : list A) (k : string) :
  In k (group_keys key data) <-> In k (map key data).
Proof.
  induction data as [|r data IH]; cbn; [tauto|].
  rewrite insert_key_in, IH. intuition congruence.
Qed.

Lemma group_keys_sorted (data : list A) :
  StronglySorted key_lt (group_keys key data).
Proof.
  induction data as [|r data IH]; cbn; [constructor|].
  now apply insert_key_sorted.
Qed.

Lemma group_keys_nodup (data : list A) : NoDup (group_keys key data).
Proof.
  generalize (group_keys_sorted data).
  induction 1 as [|a ks Hs IH Ha]; constructor; [|assumption].
  intros Hin. rewrite Forall_forall in Ha. specialize (Ha a Hin).
  unfold key_lt in Ha. rewrite StringOrder.compare_refl in Ha. discriminate.
Qed.

Context {B : Type} (agg : list A -> B).

Lemma groupby_sum_keys (data : list A) :
  map fst (groupby_sum key agg data) = group_keys key data.
Proof.
  unfold groupby_sum. rewrite map_map. cbn. apply map_id.
Qed.

Lemma groupby_sum_in (data : list A) (k : string) (v : B) :
  In (k, v) (groupby_sum key agg data) <->
  In k (map key data) /\ v = agg (group key data k).
Proof.
  unfold groupby_sum. rewrite in_map_iff, <- group_keys_in. split.
  - intros (k' & E & Hk). inversion E; subst. now split.
  - intros [Hk ->]. now exists k.
Qed.

Lemma groupby_sum_sorted (data : list A) :
  StronglySorted (fun a b => key_lt (fst a) (fst b)) (groupby_sum key agg data).
Proof.
  unfold groupby_sum.
  generalize (group_keys_sorted data).
  induction 1 as [|a ks Hs IH Ha]; cbn; constructor; [assumption|].
  rewrite Forall_forall in *. intros y Hy.
  apply in_map_iff in Hy. destruct Hy as (k & <- & Hk). cbn. now apply Ha.
Qed.

End GroupFacts.

(** *** The sort that keeps ties in place is a sort *)

Lemma stable_sort_sorts : sorts stable_sort.
Proof.
  intros A K by_ isna leb l. split.
  - apply sort_values_perm.
  - intros Htotal Htrans. now apply sort_values_sorted.
Qed.

(** *** A table cut to its first ten rows after a descending sort *)

Section TopTen.
Context {A K : Type} (by_ : A -> K) (isna : K -> bool) (leb : K -> K -> bool).
Variable sort_by : sorter.
Hypothesis sort_by_sorts : sorts sort_by.
Hypothesis leb_total : forall a b,
  isna a = false -> isna b = false -> leb a b = true \/ leb b a = true.
Hypothesis leb_trans : forall a b c,
  leb a b = true -> leb b c = true -> leb a c = true.


End TopTen.

(** *** Sums of a 64-bit column *)

Ltac powers :=
  change (2 ^ 64) with 18446744073709551616 in *;
  change (2 ^ 63) with 9223372036854775808 in *.

Lemma wrap64_small (z : Z) : Normalize.in_int64 z = true -> wrap64 z = z.
Proof.
  unfold Normalize.in_int64, Normalize.int64_min, Normalize.int64_max, wrap64.
  rewrite andb_true_iff, !Z.leb_le. powers. intros [Hlo Hhi].
  rewrite Z.mod_small; lia.
Qed.

Lemma wrap64_range (z : Z) : Normalize.in_int64 (wrap64 z) = true.
Proof.
  unfold Normalize.in_int64, Normalize.int64_min, Normalize.int64_max, wrap64.
  rewrite andb_true_iff, !Z.leb_le. powers.
  pose proof (Z.mod_pos_bound (z + 9223372036854775808) 18446744073709551616 ltac:(lia)).
  lia.
Qed.

Lemma wrap64_add_l (a b : Z) : wrap64 (wrap64 a + b) = wrap64 (a + b).
Proof.
  unfold wrap64. f_equal.
  replace ((a + 2 ^ 63) mod 2 ^ 64 - 2 ^ 63 + b + 2 ^ 63)
    with ((a + 2 ^ 63) mod 2 ^ 64 + b) by lia.
  rewrite Zplus_mod_idemp_l. f_equal. lia.
Qed.

Lemma wrap64_add_r (a b : Z) : wrap64 (a + wrap64 b) = wrap64 (a + b).
Proof. rewrite (Z.add_comm a), wrap64_add_l. f_equal. lia. Qed.

Lemma exact_sum_cons (x : Z) (l : list Z) : exact_sum (x :: l) = x + exact_sum l.
Proof. reflexivity. Qed.

Lemma fold_wrap64 (l : list Z) (a : Z) :
  fold_left (fun acc x => wrap64 (acc + x)) l (wrap64 a) = wrap64 (a + exact_sum l).
Proof.
  revert a. induction l as [|x l IH]; intros a; cbn [fold_left].
  - change (exact_sum []) with 0. f_equal. lia.
  - rewrite wrap64_add_l, IH, exact_sum_cons. f_equal. lia.
Qed.

Lemma wrap64_signed (z : Z) : wrap64 z = signed64 z.
Proof.
  unfold wrap64, signed64. cbv zeta. powers.
  rewrite <- (Zplus_mod_idemp_l z).
  pose proof (Z.mod_pos_bound z 18446744073709551616 ltac:(lia)) as Hr.
  destruct (Z.ltb_spec (z mod 18446744073709551616) 9223372036854775808) as [Hlt|Hge].
  - rewrite Z.mod_small; lia.
  - rewrite <- (Z.mod_unique (z mod 18446744073709551616 + 9223372036854775808)
                  18446744073709551616 1
                  (z mod 18446744073709551616 - 9223372036854775808)); lia.
Qed.

Lemma sum64_wrap64 (l : list Z) : sum64 l = wrap64 (exact_sum l).
Proof. unfold sum64. now rewrite wrap64_signed. Qed.

(** The sum the frame computes is the sum of the numbers, brought to 64
    bits. *)
Lemma int_sum_wrap (l : list Z) : int_sum l = sum64 l.
Proof. rewrite sum64_wrap64. unfold int_sum. exact (fold_wrap64 l 0). Qed.

Lemma exact_sum_perm (l l' : list Z) :
  Permutation l l' -> exact_sum l = exact_sum l'.
Proof.
  induction 1 as [|x l l' _ IH|x y l|l l' l'' _ IH1 _ IH2];
    rewrite ?exact_sum_cons; lia.
Qed.

Lemma int_sum_perm (l l' : list Z) : Permutation l l' -> int_sum l = int_sum l'.
Proof.
  intros H. rewrite !int_sum_wrap, !sum64_wrap64. now rewrite (exact_sum_perm l l' H).
Qed.

Lemma exact_sum_zeros {A} (keys : list A) : exact_sum (map (fun _ => 0) keys) = 0.
Proof.
  induction keys as [|k keys IH]; [reflexivity|].
  cbn [map]. rewrite exact_sum_cons. lia.
Qed.

Lemma exact_sum_add {A} (f g : A -> Z) (keys : list A) :
  exact_sum (map (fun k => f k + g k) keys) =
  exact_sum (map f keys) + exact_sum (map g keys).
Proof.
  induction keys as [|k keys IH]; [reflexivity|].
  cbn [map]. rewrite !exact_sum_cons. lia.
Qed.

Lemma exact_sum_single (x : string) (v : Z) (keys : list string) :
  NoDup keys -> In x keys ->
  exact_sum (map (fun k => if String.eqb x k then v else 0) keys) = v.
Proof.
  induction 1 as [|k keys Hk Hnd IH]; [contradiction|].
  intros Hin. cbn [map]. rewrite exact_sum_cons.
  destruct (String.eqb_spec x k) as [->|Hne].
  - rewrite (map_ext_in _ (fun _ => 0)), exact_sum_zeros; [lia|].
    intros k' Hk'. destruct (String.eqb_spec k k'); [congruence|reflexivity].
  - destruct Hin as [E|Hin]; [congruence|]. rewrite (IH Hin). lia.
Qed.

(** The sums over the groups add up to the sum over the records. *)
Lemma exact_sum_groups {A} (key : A -> string) (f : A -> Z) (data : list A)
  (keys : list string) :
  NoDup keys -> (forall r, In r data -> In (key r) keys) ->
  exact_sum (map (fun k => exact_sum (map f (group key data k))) keys) =
  exact_sum (map f data).
Proof.
  intros Hnd. induction data as [|r data IH]; intros Hcover.
  - cbn. apply exact_sum_zeros.
  - cbn [map]. rewrite exact_sum_cons.
    rewrite <- IH by (intros x Hx; apply Hcover; now right).
    pose proof (exact_sum_single (key r) (f r) keys Hnd (Hcover r (or_introl eq_refl)))
      as Hs.
    rewrite <- Hs at 1. rewrite <- exact_sum_add. f_equal. apply map_ext. intros k.
    unfold group. cbn [filter].
    destruct (String.eqb (key r) k); [|reflexivity].
    cbn [map]. apply exact_sum_cons.
Qed.

Lemma sum64_wrapped {A} (g : A -> Z) (keys : list A) :
  sum64 (map (fun k => wrap64 (g k)) keys) = sum64 (map g keys).
Proof.
  rewrite !sum64_wrap64. induction keys as [|k keys IH]; [reflexivity|].
  cbn [map]. rewrite !exact_sum_cons.
  rewrite wrap64_add_l, <- wrap64_add_r, IH, wrap64_add_r. reflexivity.
Qed.

Lemma int_sum_groups {A} (key : A -> string) (f : A -> Z) (data : list A)
  (keys : list string) :
  NoDup keys -> (forall r, In r data -> In (key r) keys) ->
  int_sum (map (fun k => int_sum (map f (group key data k))) keys) =
  int_sum (map f data).
Proof.
  intros Hnd Hcover. rewrite !int_sum_wrap.
  rewrite (map_ext _ (fun k => wrap64 (exact_sum (map f (group key data k)))))
    by (intros k; now rewrite int_sum_wrap, sum64_wrap64).
  rewrite sum64_wrapped, !sum64_wrap64.
  now rewrite exact_sum_groups.
Qed.

(** The two orders of the tables: integers, and binary64 with NaN last. *)



Lemma float_nan_no_tie {A} (by_ : A -> float) (x y : A) :
  is_nan (by_ x) = true -> ~ tie by_ PrimFloat.leb x y.
Proof.
  intros Hx [H _]. apply FloatOrderFacts.leb_not_nan in H. destruct H. congruence.
Qed.

End FrameFacts.

(* ================================================================== *)
(** ** Facts about [float] on a [str]: what it accepts *)

Module TextFacts.
Import Spec.

(** *** Characters *)

Lemma is_space_white (c : ascii) : is_space c = is_white c.
Proof. destruct c as [[] [] [] [] [] [] [] []]; reflexivity. Qed.

Lemma lstrip_drop_white (l : list ascii) : lstrip l = drop_white l.
Proof.
  induction l as [|c l IH]; cbn; [reflexivity|].
  now rewrite is_space_white, IH.
Qed.

Lemma strip_trim (l : list ascii) : strip l = trim l.
Proof. unfold strip, trim. now rewrite !lstrip_drop_white. Qed.

(** The tests the parser makes on a character, by the class of the
    character. *)
Definition is_digit (c : ascii) : bool :=
  match digit_of c with Some _ => true | None => false end.

Definition tests (c : ascii) : bool * bool * bool * bool * bool * bool :=
  (is_digit c, Ascii.eqb c "_", Ascii.eqb c ".", Ascii.eqb (lower c) "e",
   Ascii.eqb c "+", Ascii.eqb c "-").

Definition tests_of (k : char_class) : bool * bool * bool * bool * bool * bool :=
  match k with
  | Digit => (true, false, false, false, false, false)
  | Underscore => (false, true, false, false, false, false)
  | Point => (false, false, true, false, false, false)
  | Exp => (false, false, false, true, false, false)
  | Plus => (false, false, false, false, true, false)
  | Minus => (false, false, false, false, false, true)
  | Other => (false, false, false, false, false, false)
  end.

Lemma class_tests (c : ascii) : tests c = tests_of (class_of c).
Proof. destruct c as [[] [] [] [] [] [] [] []]; reflexivity. Qed.

Lemma digit_of_class (c : ascii) :
  match digit_of c with
  | Some _ => class_of c = Digit
  | None => class_of c <> Digit
  end.
Proof.
  pose proof (class_tests c) as H. unfold tests, is_digit in H.
  destruct (digit_of c), (class_of c); cbn in H; congruence.
Qed.

Lemma underscore_class (c : ascii) :
  Ascii.eqb c "_" = match class_of c with Underscore => true | _ => false end.
Proof.
  pose proof (class_tests c) as H. unfold tests in H.
  destruct (class_of c); cbn in H; congruence.
Qed.

Lemma point_class (c : ascii) :
  Ascii.eqb c "." = match class_of c with Point => true | _ => false end.
Proof.
  pose proof (class_tests c) as H. unfold tests in H.
  destruct (class_of c); cbn in H; congruence.
Qed.

Lemma exp_class (c : ascii) :
  Ascii.eqb (lower c) "e" = match class_of c with Exp => true | _ => false end.
Proof.
  pose proof (class_tests c) as H. unfold tests in H.
  destruct (class_of c); cbn in H; congruence.
Qed.

Lemma plus_class (c : ascii) :
  Ascii.eqb c "+" = match class_of c with Plus => true | _ => false end.
Proof.
  pose proof (class_tests c) as H. unfold tests in H.
  destruct (class_of c); cbn in H; congruence.
Qed.

Lemma minus_class (c : ascii) :
  Ascii.eqb c "-" = match class_of c with Minus => true | _ => false end.
Proof.
  pose proof (class_tests c) as H. unfold tests in H.
  destruct (class_of c); cbn in H; congruence.
Qed.

(** *** The automaton *)

Lemma run_cons (q : state) (c : ascii) (l : list ascii) :
  run q (c :: l) = run (next q (class_of c)) l.
Proof. reflexivity. Qed.

Lemma run_dead (l : list ascii) : run Dead l = Dead.
Proof. induction l as [|c l IH]; [reflexivity|]. rewrite run_cons. exact IH. Qed.

(** Where a run of digits ends: not before a digit, and an underscore
    there is not followed by a digit. *)
Definition stops (q : state) (rest : list ascii) : Prop :=
  match rest with
  | [] => True
  | c :: _ => class_of c <> Digit /\
              (class_of c = Underscore -> final (run q rest) = false)
  end.

Section DigitLoop.
Variables q qs : state.
Hypothesis digit_stays : next q Digit = q.
Hypothesis sep_enters : next q Underscore = qs.
Hypothesis sep_leaves : next qs Digit = q.
Hypothesis sep_dies : forall k, k <> Digit -> next qs k = Dead.
Hypothesis sep_not_final : final qs = false.

Lemma more_digits_run (n : nat) :
  forall (l : list ascii) (acc cnt a k : Z) (rest : list ascii),
    (List.length l <= n)%nat ->
    more_digits acc cnt l = (a, k, rest) ->
    run q l = run q rest /\ stops q rest.
Proof.
  induction n as [|n IH]; intros l acc cnt a k rest Hlen.
  - destruct l; [|cbn in Hlen; lia]. cbn. intros E. injection E as <- <- <-. now split.
  - destruct l as [|c l']; cbn [more_digits].
    + intros E. injection E as <- <- <-. now split.
    + pose proof (digit_of_class c) as Hd. rewrite underscore_class.
      destruct (digit_of c) as [d|].
      * intros E. rewrite run_cons, Hd, digit_stays.
        apply (IH l' _ _ _ _ _ ltac:(cbn in Hlen; lia) E).
      * destruct (class_of c) eqn:Ec; try congruence;
          try (intros E; injection E as <- <- <-; split; [reflexivity|];
               cbn [stops]; rewrite Ec; split; congruence).
        destruct l' as [|c' l''].
        -- intros E. injection E as <- <- <-. split; [reflexivity|].
           cbn [stops]. rewrite Ec. split; [congruence|]. intros _.
           rewrite run_cons, Ec, sep_enters. exact sep_not_final.
        -- pose proof (digit_of_class c') as Hd'.
           destruct (digit_of c') as [d'|].
           ++ intros E. rewrite !run_cons, Ec, sep_enters, Hd', sep_leaves.
              apply (IH l'' _ _ _ _ _ ltac:(cbn in Hlen; lia) E).
           ++ intros E. injection E as <- <- <-. split; [reflexivity|].
              cbn [stops]. rewrite Ec. split; [congruence|]. intros _.
              rewrite !run_cons, Ec, sep_enters, (sep_dies _ Hd'), run_dead.
              reflexivity.
Qed.

End DigitLoop.

(** The three loops over digits. *)
Lemma int_digits_run (l : list ascii) (acc cnt a k : Z) (rest : list ascii) :
  more_digits acc cnt l = (a, k, rest) ->
  run IntDigits l = run IntDigits rest /\ stops IntDigits rest.
Proof.
  apply (more_digits_run IntDigits IntSep) with (n := List.length l);
    try reflexivity; try lia.
  intros []; congruence || reflexivity.
Qed.

Lemma frac_digits_run (l : list ascii) (acc cnt a k : Z) (rest : list ascii) :
  more_digits acc cnt l = (a, k, rest) ->
  run FracDigits l = run FracDigits rest /\ stops FracDigits rest.
Proof.
  apply (more_digits_run FracDigits FracSep) with (n := List.length l);
    try reflexivity; try lia.
  intros []; congruence || reflexivity.
Qed.

Lemma exp_digits_run (l : list ascii) (acc cnt a k : Z) (rest : list ascii) :
  more_digits acc cnt l = (a, k, rest) ->
  run ExpDigits l = run ExpDigits rest /\ stops ExpDigits rest.
Proof.
  apply (more_digits_run ExpDigits ExpSep) with (n := List.length l);
    try reflexivity; try lia.
  intros []; congruence || reflexivity.
Qed.

(** *** The exponent *)

(** [digitpart] read to the end of the text. *)
Definition digits_to_end (l : list ascii) : bool :=
  match digitpart 0 l with
  | Some (_, _, []) => true
  | _ => false
  end.

Lemma exp_digits_to_end (q0 : state) (l : list ascii) :
  next q0 Digit = ExpDigits -> final q0 = false ->
  match l with
  | c :: _ => class_of c <> Digit -> next q0 (class_of c) = Dead
  | [] => True
  end ->
  final (run q0 l) = digits_to_end l.
Proof.
  intros Hdig Hfin Hother. unfold digits_to_end.
  destruct l as [|c l']; [exact Hfin|].
  cbn [digitpart]. pose proof (digit_of_class c) as Hd.
  destruct (digit_of c) as [d|].
  - rewrite run_cons, Hd, Hdig.
    destruct (more_digits (10 * 0 + d) 1 l') as [[a k] rest] eqn:E.
    destruct (exp_digits_run _ _ _ _ _ _ E) as [-> Hstop].
    destruct rest as [|c2 r2]; [reflexivity|].
    cbn [stops] in Hstop. destruct Hstop as [Hnd Hus].
    destruct (class_of c2) eqn:Ec2; try congruence;
      try (rewrite run_cons, Ec2; cbn [next]; now rewrite run_dead).
    now apply Hus.
  - rewrite run_cons, (Hother Hd), run_dead. reflexivity.
Qed.

Definition exponent_to_end (rest : list ascii) : bool :=
  match exponent rest with
  | Some (_, []) => true
  | _ => false
  end.

Lemma exp_mark_run (r : list ascii) :
  final (run ExpMark r) = digits_to_end (snd (sign_of r)).
Proof.
  destruct r as [|c r']; [reflexivity|].
  cbn [sign_of]. rewrite minus_class, plus_class.
  destruct (class_of c) eqn:Ec; cbn [snd];
    try (apply exp_digits_to_end; [reflexivity|reflexivity|];
         rewrite Ec; intros _; reflexivity).
  - apply exp_digits_to_end; [reflexivity|reflexivity|]. rewrite Ec. congruence.
  - rewrite run_cons, Ec. cbn [next].
    apply exp_digits_to_end; [reflexivity|reflexivity|].
    destruct r' as [|c2 r2]; [exact I|].
    destruct (class_of c2); congruence || reflexivity.
  - rewrite run_cons, Ec. cbn [next].
    apply exp_digits_to_end; [reflexivity|reflexivity|].
    destruct r' as [|c2 r2]; [exact I|].
    destruct (class_of c2); congruence || reflexivity.
Qed.

Lemma exponent_sign (c : ascii) (r : list ascii) :
  class_of c = Exp -> exponent_to_end (c :: r) = digits_to_end (snd (sign_of r)).
Proof.
  intros Ec. unfold exponent_to_end, digits_to_end. cbn [exponent].
  rewrite exp_class, Ec.
  destruct (sign_of r) as [neg l'']. cbn [snd].
  destruct (digitpart 0 l'') as [[[e k] [|c2 rest]]|]; reflexivity.
Qed.

(** After the digits of the number: the end, or an exponent. *)
Lemma after_number (q : state) (rest : list ascii) :
  final q = true ->
  match rest with
  | [] => True
  | c :: _ => (class_of c = Exp -> next q Exp = ExpMark) /\
              (class_of c <> Exp -> final (run q rest) = false)
  end ->
  final (run q rest) = exponent_to_end rest.
Proof.
  intros Hfin Hrest. destruct rest as [|c r]; [exact Hfin|].
  destruct Hrest as [Hexp Hno].
  destruct (class_of c) eqn:Ec;
    try (rewrite Hno by congruence; unfold exponent_to_end; cbn [exponent];
         rewrite exp_class, Ec; reflexivity).
  rewrite (exponent_sign c r Ec), run_cons, Ec, (Hexp eq_refl).
  apply exp_mark_run.
Qed.

(** *** The number *)

Definition number_to_end (l : list ascii) : bool :=
  match number l with
  | Some (_, _, rest) => exponent_to_end rest
  | None => false
  end.

Lemma after_frac_digits (rest : list ascii) :
  stops FracDigits rest -> final (run FracDigits rest) = exponent_to_end rest.
Proof.
  intros Hstop. apply after_number; [reflexivity|].
  destruct rest as [|c r]; [exact I|]. cbn [stops] in Hstop.
  destruct Hstop as [Hnd Hus]. split; [reflexivity|].
  destruct (class_of c) eqn:Ec; try congruence; intros _;
    try (rewrite run_cons, Ec; cbn [next]; now rewrite run_dead).
  now apply Hus.
Qed.

Lemma after_point (q : state) (m : Z) (rest : list ascii) :
  next q Digit = FracDigits ->
  (forall k, k <> Digit -> k <> Exp -> next q k = Dead) ->
  match digitpart m rest with
  | Some (_, _, rest') => final (run q rest) = exponent_to_end rest'
  | None => match rest with
            | c :: _ => class_of c <> Digit
            | [] => True
            end
  end.
Proof.
  intros Hdig Hdead. destruct rest as [|c r]; cbn [digitpart]; [exact I|].
  pose proof (digit_of_class c) as Hd.
  destruct (digit_of c) as [d|]; [|exact Hd].
  destruct (more_digits (10 * m + d) 1 r) as [[a k] rest'] eqn:E.
  rewrite run_cons, Hd, Hdig.
  destruct (frac_digits_run _ _ _ _ _ _ E) as [-> Hstop].
  now apply after_frac_digits.
Qed.

Lemma number_run (l : list ascii) : final (run Signed l) = number_to_end l.
Proof.
  unfold number_to_end, number.
  destruct l as [|c l']; [reflexivity|].
  cbn [digitpart]. pose proof (digit_of_class c) as Hd. rewrite point_class.
  destruct (digit_of c) as [d|].
  - (* digits first *)
    rewrite run_cons, Hd. cbn [next].
    destruct (more_digits (10 * 0 + d) 1 l') as [[m k] rest] eqn:E.
    destruct (int_digits_run _ _ _ _ _ _ E) as [-> Hstop].
    destruct rest as [|c2 rest']; [reflexivity|].
    cbn [stops] in Hstop. destruct Hstop as [Hnd Hus].
    rewrite point_class.
    destruct (class_of c2) eqn:Ec2; try congruence.
    + (* underscore *)
      rewrite (Hus eq_refl). unfold exponent_to_end. cbn [exponent].
      now rewrite exp_class, Ec2.
    + (* point *)
      rewrite run_cons, Ec2. cbn [next].
      pose proof (after_point PointAfter m rest' eq_refl) as Hp.
      destruct (digitpart m rest') as [[[m' k'] rest'']|].
      * apply Hp. intros []; congruence || reflexivity.
      * apply after_number; [reflexivity|].
        destruct rest' as [|c3 r3]; [exact I|].
        assert (Hc3 : class_of c3 <> Digit)
          by (apply Hp; intros []; congruence || reflexivity).
        split; [reflexivity|].
        destruct (class_of c3) eqn:Ec3; try congruence; intros _;
          rewrite run_cons, Ec3; cbn [next]; now rewrite run_dead.
    + (* exponent *)
      apply after_number; [reflexivity|]. split; [reflexivity|congruence].
    + apply after_number; [reflexivity|]. split; [reflexivity|].
      intros _. rewrite run_cons, Ec2. cbn [next]. now rewrite run_dead.
    + apply after_number; [reflexivity|]. split; [reflexivity|].
      intros _. rewrite run_cons, Ec2. cbn [next]. now rewrite run_dead.
    + apply after_number; [reflexivity|]. split; [reflexivity|].
      intros _. rewrite run_cons, Ec2. cbn [next]. now rewrite run_dead.
  - (* no digit first *)
    destruct (class_of c) eqn:Ec; try congruence;
      try (rewrite run_cons, Ec; cbn [next]; now rewrite run_dead).
    rewrite run_cons, Ec. cbn [next].
    pose proof (after_point PointFirst 0 l' eq_refl) as Hp.
    destruct (digitpart 0 l') as [[[m' k'] rest'']|].
    + apply Hp. intros []; congruence || reflexivity.
    + destruct l' as [|c3 r3]; [reflexivity|].
      assert (Hc3 : class_of c3 <> Digit).
      { apply Hp. intros []; congruence || reflexivity. }
      rewrite run_cons.
      destruct (class_of c3) eqn:Ec3; try congruence; cbn [next];
        now rewrite run_dead.
Qed.

(** *** The sign, the special words, and the whole text *)

Lemma start_run (l : list ascii) :
  decimal_text l = number_to_end (snd (sign_of l)).
Proof.
  unfold decimal_text. destruct l as [|c l']; [reflexivity|].
  cbn [sign_of]. rewrite minus_class, plus_class.
  destruct (class_of c) eqn:Ec; cbn [snd]; rewrite <- number_run, !run_cons, Ec;
    reflexivity.
Qed.

Lemma sign_of_unsigned (l : list ascii) : snd (sign_of l) = unsigned l.
Proof.
  destruct l as [|c l']; [reflexivity|]. cbn [sign_of unsigned].
  destruct (Ascii.eqb c "-"), (Ascii.eqb c "+"); reflexivity.
Qed.

(** A lower-case letter of the special words: it is met in either case. *)
Definition letter (a : ascii) : Prop :=
  forall c, Ascii.eqb (lower c) a = Ascii.eqb c a || Ascii.eqb c (upper_of a).

Lemma letters_of_words :
  Forall letter (list_ascii_of_string "inf") /\
  Forall letter (list_ascii_of_string "infinity") /\
  Forall letter (list_ascii_of_string "nan").
Proof.
  assert (H : Forall letter (list_ascii_of_string "infinityan")).
  { repeat constructor; intros c; destruct c as [[] [] [] [] [] [] [] []];
      reflexivity. }
  cbn in H |- *. rewrite !Forall_cons_iff in *. tauto.
Qed.

Lemma spells_lower (w : string) (l : list ascii) :
  Forall letter (list_ascii_of_string w) ->
  String.eqb (string_of_list_ascii (map lower l)) w =
  spells (list_ascii_of_string w) l.
Proof.
  revert l. induction w as [|a w IH]; intros [|c l] Hw; cbn; try reflexivity.
  inversion Hw as [|? ? Ha Hw']; subst.
  now rewrite Ha, IH.
Qed.

Definition accepted (r : result float) : bool :=
  match r with inr _ => true | inl _ => false end.

Lemma parse_float_accepted (text : list ascii) :
  accepted (parse_float text) = special_text (trim text) || decimal_text (trim text).
Proof.
  unfold parse_float. rewrite strip_trim, start_run.
  unfold special_text. cbn [existsb]. rewrite <- sign_of_unsigned.
  destruct (sign_of (trim text)) as [neg body]. cbn [snd].
  destruct letters_of_words as (Hinf & Hinfinity & Hnan).
  rewrite <- (spells_lower "inf"), <- (spells_lower "infinity"),
    <- (spells_lower "nan") by assumption.
  rewrite orb_false_r, orb_assoc.
  destruct (_ || _); [reflexivity|].
  destruct (String.eqb _ "nan"); [reflexivity|]. cbn [orb].
  unfold number_to_end, exponent_to_end.
  destruct (number body) as [[[m k] rest]|]; [|reflexivity].
  destruct (exponent rest) as [[e [|c tl]]|]; reflexivity.
Qed.

(** [float] accepts exactly the numeric strings. *)
Lemma float_of_str_accepted (s : string) :
  accepted (float_of_str s) = numeric_text s.
Proof.
  unfold float_of_str, numeric_text.
  destruct (code_points _); [apply parse_float_accepted|reflexivity].
Qed.

Lemma numeric_text_parses (s : string) :
  numeric_text s = true <-> exists f, float_of_str s = inr f.
Proof.
  rewrite <- float_of_str_accepted. destruct (float_of_str s) as [e|f]; cbn; split.
  - discriminate.
  - intros (f & H). discriminate.
  - intros _. now exists f.
  - reflexivity.
Qed.

Lemma float_of_str_raises (s : string) (e : exn) :
  float_of_str s = inl e -> e = ValueError.
Proof.
  unfold float_of_str. destruct (code_points _); [|intros H; now inversion H].
  unfold parse_float.
  destruct (sign_of _) as [neg body].
  destruct (_ || _); [discriminate|].
  destruct (String.eqb _ "nan"); [discriminate|].
  destruct (number body) as [[[m k] rest]|]; [|intros H; now inversion H].
  destruct (exponent rest) as [[x [|c tl]]|]; intros H; now inversion H.
Qed.

(** The numeric strings, tried: the automaton and the word list against
    what [float] accepts. *)
Example numeric_text_examples :
  map numeric_text ["1.50"; " 2.0 "; "-1_000.5e-3"; ".5"; "5."; "1e23"; "+inf";
                    "-Infinity"; "NaN"; "1.e5"] = repeat true 10 /\
  map numeric_text ["n/a"; ""; "."; "1e"; "1_.5"; "1__0"; "0x10"; "1 2"; "--1";
                    "1._5"; "e5"; "infinit"; "- 1"] = repeat false 13.
Proof. split; vm_compute; reflexivity. Qed.

End TextFacts.

(* ================================================================== *)
(** ** Facts about [process_data] *)

Module NormalizeFacts.
Import Normalize Spec TextFacts.

Lemma dict_get_in (d : list (string * pyval)) (k : string) (v : pyval) :
  NoDup (map fst d) -> In (k, v) d -> dict_get k d = Some v.
Proof.
  induction d as [|[k' v'] d IH]; cbn; [contradiction|].
  intros Hnd Hin. inversion Hnd as [|? ? Hk Hd]; subst.
  destruct Hin as [E|Hin].
  - inversion E; subst. now rewrite String.eqb_refl.
  - destruct (String.eqb_spec k k') as [->|_].
    + exfalso. apply Hk. apply in_map_iff. now exists (k', v).
    + now apply IH.
Qed.

(** One iteration, when [data[user_email][0]] can be read: [record] is
    bound to it, and the iteration ends with a row appended or with one
    message shown. *)
Lemma iteration_entry_read (data user_email rec : pyval) (st : locals) :
  first_entry data user_email = inr rec ->
  iteration data st user_email =
  inr match build_row user_email rec with
      | inr r => {| record := Some rec;
                    processed_data := processed_data st ++ [r];
                    shown := shown st |}
      | inl e => {| record := Some rec;
                    processed_data := processed_data st;
                    shown := shown st ++ [message e rec] |}
      end.
Proof.
  intros H. unfold iteration, try_body. rewrite H.
  destruct (build_row user_email rec); reflexivity.
Qed.






(** In a [dict], [data[k][0]] for a key [k] of the dict whose value is a
    list that starts with [rec]. *)
Lemma first_entry_dict (d : list (string * pyval)) (u : string) (rec : pyval)
  (rest : list pyval) :
  dict_get u d = Some (PList (rec :: rest)) ->
  first_entry (PDict d) (PStr u) = inr rec.
Proof.
  intros H. unfold first_entry. cbn. rewrite H. reflexivity.
Qed.

(** What [build_row] does on a well-formed and on a malformed entry. *)

(** A dictionary whose values have the types of the frame's columns. *)
Definition typed_dict (r : row) : bool :=
  is_str (model r) && is_str (user r)
  && match total_tokens r with PInt t => in_int64 t | _ => false end
  && match total_cost r with
     | PFloat _ => true
     | PInt z => in_int64 z
     | _ => false
     end.

Lemma build_row_well_formed (u : string) (e : list (string * pyval))
  (rest : list pyval) :
  well_formed_entry e = true ->
  exists r, record_of (u, PList (PDict e :: rest)) = Some r /\
            build_row (PStr u) (PDict e) = inr r /\
            typed_dict r = true.
Proof.
  unfold well_formed_entry, record_of, build_row, getitem, typed_dict.
  cbn [first_of snd fst].
  destruct (dict_get "model" e) as [[]|]; try discriminate.
  destruct (dict_get "total_cost" e) as [c|]; [|discriminate].
  destruct (dict_get "input_tokens" e) as [[]|]; try discriminate.
  destruct (dict_get "output_tokens" e) as [[]|]; try discriminate.
  rewrite !andb_true_iff. intros [[[Hc Hi] Ho] Hsum].
  destruct c; try discriminate; cbn in Hc |- *.
  - eexists; repeat split; cbn; now rewrite ?Hsum, ?Hc.
  - eexists; repeat split; cbn; now rewrite ?Hsum.
  - apply numeric_text_parses in Hc. destruct Hc as (f & ->).
    cbn. eexists; repeat split; cbn; now rewrite ?Hsum.
Qed.

Lemma build_row_malformed (u : pyval) (e : list (string * pyval)) :
  malformed_entry e = true ->
  exists err, build_row u (PDict e) = inl err /\
    (St.kind_of (message err (PDict e)) = St.MissingField \/
     St.kind_of (message err (PDict e)) = St.InvalidNumeric).
Proof.
  unfold malformed_entry, missing_field, unparsable_cost, required, has_field,
    build_row, getitem.
  cbn [existsb].
  destruct (dict_get "model" e) as [m|]; cbn [negb orb bind raise];
    [|intros _; eexists; split; [reflexivity|now left]].
  destruct (dict_get "total_cost" e) as [c|]; cbn [negb orb bind raise ret];
    [|intros _; eexists; split; [reflexivity|now left]].
  assert (Htail : forall c',
    (negb match dict_get "input_tokens" e with Some _ => true | None => false end
     || (negb match dict_get "output_tokens" e with Some _ => true | None => false end
         || false)) = true ->
    exists err,
      (input_tokens <- match dict_get "input_tokens" e with
                       | Some v => ret v
                       | None => raise (KeyError (PStr "input_tokens"))
                       end ;;
       output_tokens <- match dict_get "output_tokens" e with
                        | Some v => ret v
                        | None => raise (KeyError (PStr "output_tokens"))
                        end ;;
       total_tokens <- add input_tokens output_tokens ;;
       ret {| model := m; total_cost := c'; user := u;
              total_tokens := total_tokens |}) = inl err /\
      (St.kind_of (message err (PDict e)) = St.MissingField \/
       St.kind_of (message err (PDict e)) = St.InvalidNumeric)).
  { intros c'.
    destruct (dict_get "input_tokens" e); cbn;
      [|intros _; eexists; split; [reflexivity|now left]].
    destruct (dict_get "output_tokens" e); cbn; [discriminate|].
    intros _; eexists; split; [reflexivity|now left]. }
  destruct c; cbn [ensure_float bind ret]; try (rewrite orb_false_r; apply Htail).
  rewrite <- float_of_str_accepted.
  destruct (float_of_str s) as [err|f] eqn:Ef; cbn [accepted negb bind].
  - intros _. apply float_of_str_raises in Ef. subst.
    eexists; split; [reflexivity|now right].
  - rewrite orb_false_r. apply Htail.
Qed.

Lemma well_formed_not_malformed (e : list (string * pyval)) :
  well_formed_entry e = true -> malformed_entry e = false.
Proof.
  unfold well_formed_entry, malformed_entry, missing_field, unparsable_cost,
    required, has_field.
  cbn [existsb].
  destruct (dict_get "model" e) as [[]|]; try discriminate.
  destruct (dict_get "total_cost" e) as [c|]; [|discriminate].
  destruct (dict_get "input_tokens" e) as [[]|]; try discriminate.
  destruct (dict_get "output_tokens" e) as [[]|]; try discriminate.
  rewrite !andb_true_iff. intros [[[Hc _] _] _]. cbn [negb orb].
  destruct c; try reflexivity. cbn in Hc. now rewrite Hc.
Qed.

(** The loop over users of a [dict] whose first entries are each well
    formed or malformed: the rows of the former, one message for each of
    the latter, in the order of the keys. *)
Lemma loop_users (d : list (string * pyval)) :
  NoDup (map fst d) ->
  forall items, incl items d ->
  forallb (fun uv => well_formed_user uv || malformed_user uv) items = true ->
  forall st, exists st' rows errs,
    loop (PDict d) (map (fun kv => PStr (fst kv)) items) st = inr st' /\
    processed_data st' = processed_data st ++ rows /\
    shown st' = shown st ++ errs /\
    map Some rows = map record_of (filter well_formed_user items) /\
    forallb typed_dict rows = true /\
    map St.context_of errs =
      map (fun uv => option_map PDict (first_of (snd uv)))
          (filter malformed_user items) /\
    Forall (fun c => St.kind_of c = St.MissingField \/
                     St.kind_of c = St.InvalidNumeric) errs.
Proof.
  intros Hnd. induction items as [|[u v] items IH]; intros Hin Hall st.
  - exists st, [], []. cbn. rewrite !app_nil_r. repeat split; constructor.
  - cbn [forallb] in Hall. apply andb_true_iff in Hall. destruct Hall as [Huv Hall].
    assert (Hget : dict_get u d = Some v).
    { apply dict_get_in; [assumption|]. apply Hin. now left. }
    assert (Hitems : incl items d) by (intros x Hx; apply Hin; now right).
    unfold well_formed_user, malformed_user, on_first in Huv.
    cbn [snd] in Huv.
    destruct v as [| | | | |[|[| | | | | |e] rest]|]; try discriminate.
    cbn [first_of] in Huv.
    cbn [map loop fst].
    rewrite (iteration_entry_read _ _ (PDict e) st (first_entry_dict d u _ rest Hget)).
    cbn [bind].
    destruct (well_formed_entry e) eqn:Ewf.
    + destruct (build_row_well_formed u e rest Ewf) as (r & Hrec & Hrow & Htyped).
      rewrite Hrow.
      edestruct (IH Hitems Hall)
        as (st' & rows & errs & Hloop & Hp & Hs & Hr & Ht & Hc & Hk).
      exists st', (r :: rows), errs. rewrite Hloop. cbn [processed_data shown] in *.
      rewrite Hp, Hs, <- app_assoc. cbn [app].
      repeat split; try assumption.
      * cbn [filter]. unfold well_formed_user at 1, on_first. cbn [snd first_of].
        rewrite Ewf. cbn [map]. now rewrite Hrec, Hr.
      * cbn [forallb]. now rewrite Htyped, Ht.
      * cbn [filter]. unfold malformed_user at 1, on_first. cbn [snd first_of].
        now rewrite (well_formed_not_malformed e Ewf).
    + cbn [orb] in Huv.
      destruct (build_row_malformed (PStr u) e Huv) as (err & Hrow & Hkind).
      rewrite Hrow.
      edestruct (IH Hitems Hall)
        as (st' & rows & errs & Hloop & Hp & Hs & Hr & Ht & Hc & Hk).
      exists st', rows, (message err (PDict e) :: errs). rewrite Hloop.
      cbn [processed_data shown] in *.
      rewrite Hp, Hs, <- app_assoc. cbn [app].
      repeat split; try assumption.
      * cbn [filter]. unfold well_formed_user at 1, on_first. cbn [snd first_of].
        now rewrite Ewf.
      * cbn [filter]. unfold malformed_user at 1, on_first. cbn [snd first_of].
        rewrite Huv. cbn [map option_map]. rewrite Hc. f_equal.
        destruct err; reflexivity.
      * now constructor.
Qed.

(** *** The frame built from the dictionaries *)

Lemma see_stopped (l : list pyval) (s : Seen) :
  object_ s = true -> fold_left see l s = s.
Proof.
  intros Hs. induction l as [|v l IH]; [reflexivity|].
  cbn [fold_left]. unfold see at 2. now rewrite Hs.
Qed.

(** A column is kept as it is, or it is made a float64 column. *)
Lemma convert_column_cases (col : list pyval) :
  convert_column col = col \/ convert_column col = map to_float col.
Proof.
  unfold convert_column. cbv zeta.
  repeat match goal with |- context [if ?b then _ else _] => destruct b end; tauto.
Qed.

Lemma convert_column_length (col : list pyval) :
  List.length (convert_column col) = List.length col.
Proof.
  destruct (convert_column_cases col) as [-> | ->]; [reflexivity|apply length_map].
Qed.

(** A value that is neither [None] nor a [float]. *)
Definition plain (v : pyval) : bool :=
  match v with PNone | PFloat _ => false | _ => true end.

Definition no_float_seen (s : Seen) : Prop :=
  null_ s = false /\ nan_ s = false /\ float_ s = false.

Lemma see_plain (s : Seen) (v : pyval) :
  plain v = true -> no_float_seen s -> no_float_seen (see s v).
Proof.
  intros Hv (Hnull & Hnan & Hfloat). unfold see, no_float_seen.
  destruct (object_ s); [tauto|].
  destruct v; try discriminate; cbn; rewrite ?Hnull; cbn; tauto.
Qed.

Lemma fold_see_plain (col : list pyval) (s : Seen) :
  forallb plain col = true -> no_float_seen s ->
  no_float_seen (fold_left see col s).
Proof.
  revert s. induction col as [|v col IH]; intros s Hcol Hs; [exact Hs|].
  cbn [forallb] in Hcol. apply andb_true_iff in Hcol. destruct Hcol as [Hv Hcol].
  cbn [fold_left]. apply IH; [assumption|]. now apply see_plain.
Qed.

(** A column without [None] and without a [float] keeps its values. *)
Lemma convert_column_plain (col : list pyval) :
  forallb plain col = true -> convert_column col = col.
Proof.
  intros Hcol.
  destruct (fold_see_plain col nothing_seen Hcol) as (Hnull & Hnan & Hfloat);
    [repeat split|].
  unfold convert_column. cbv zeta. rewrite Hnull, Hnan, Hfloat. cbn [orb].
  now destruct (bool_ (fold_left see col nothing_seen)),
    (object_ (fold_left see col nothing_seen)).
Qed.

(** A column of floats and 64-bit integers: integers when no float is
    among them, float64 otherwise. *)
Definition number64 (v : pyval) : bool :=
  match v with
  | PFloat _ => true
  | PInt z => in_int64 z
  | _ => false
  end.

Definition is_float (v : pyval) : bool :=
  match v with PFloat _ => true | _ => false end.

Definition numbers_seen (s : Seen) (some_float : bool) : Prop :=
  null_ s = false /\ bool_ s = false /\ uint_ s = false /\ object_ s = false /\
  nan_ s || float_ s = some_float.

Lemma in_int64_bounds (z : Z) :
  in_int64 z = true ->
  (int64_max <? z) = false /\ (uint64_max <? z) = false /\ (z <? int64_min) = false.
Proof.
  unfold in_int64, int64_min, int64_max, uint64_max.
  rewrite andb_true_iff, !Z.leb_le, !Z.ltb_ge. FrameFacts.powers. lia.
Qed.

Lemma see_number (s : Seen) (v : pyval) (b : bool) :
  number64 v = true -> numbers_seen s b -> numbers_seen (see s v) (b || is_float v).
Proof.
  intros Hv (Hnull & Hbool & Huint & Hobj & Hfl). unfold see, numbers_seen.
  rewrite Hobj. destruct v; try discriminate; cbn [number64 is_float] in *.
  - rewrite Hnull, Huint.
    destruct (in_int64_bounds z Hv) as (-> & -> & ->).
    cbn. rewrite orb_false_r. tauto.
  - destruct (is_nan f); cbn; rewrite <- Hfl;
      repeat split; try assumption;
      destruct (nan_ s), (float_ s); reflexivity.
Qed.

Lemma fold_see_numbers (col : list pyval) (s : Seen) (b : bool) :
  forallb number64 col = true -> numbers_seen s b ->
  numbers_seen (fold_left see col s) (b || existsb is_float col).
Proof.
  revert s b. induction col as [|v col IH]; intros s b Hcol Hs.
  - cbn. now rewrite orb_false_r.
  - cbn [forallb] in Hcol. apply andb_true_iff in Hcol. destruct Hcol as [Hv Hcol].
    cbn [fold_left existsb]. rewrite orb_assoc. apply IH; [assumption|].
    now apply see_number.
Qed.

Lemma convert_column_numbers (col : list pyval) :
  forallb number64 col = true ->
  convert_column col = if existsb is_float col then map to_float col else col.
Proof.
  intros Hcol.
  destruct (fold_see_numbers col nothing_seen false Hcol)
    as (Hnull & Hbool & Huint & Hobj & Hfl); [repeat split|].
  cbn [orb] in Hfl. unfold convert_column. cbv zeta.
  rewrite Hnull, Hbool, Hobj, <- Hfl. cbn [orb].
  destruct (nan_ (fold_left see col nothing_seen)),
    (float_ (fold_left see col nothing_seen)); cbn; try reflexivity.
  now rewrite orb_true_r.
Qed.

(** The rows of the frame, from its columns. *)
Definition rebuild (ms cs us ts : list pyval) : list row :=
  map (fun cells : pyval * pyval * pyval * pyval =>
         let '(m, c, u, t) := cells in
         {| model := m; total_cost := c; user := u; total_tokens := t |})
      (combine (combine (combine ms cs) us) ts).

Lemma rebuild_columns (ms cs us ts : list pyval) :
  List.length cs = List.length ms -> List.length us = List.length ms ->
  List.length ts = List.length ms ->
  List.length (rebuild ms cs us ts) = List.length ms /\
  map user (rebuild ms cs us ts) = us /\
  map total_cost (rebuild ms cs us ts) = cs.
Proof.
  revert cs us ts. induction ms as [|m ms IH]; intros [|c cs] [|u us] [|t ts];
    cbn; try discriminate; intros Hc Hu Ht; [repeat split|].
  destruct (IH cs us ts) as (Hl & Hus & Hcs); try congruence.
  fold (rebuild ms cs us ts). now rewrite Hl, Hus, Hcs.
Qed.

Lemma frame_columns (dicts : list row) :
  List.length (DataFrame_of dicts) = List.length dicts /\
  map user (DataFrame_of dicts) = convert_column (map user dicts) /\
  map total_cost (DataFrame_of dicts) = convert_column (map total_cost dicts).
Proof.
  change (DataFrame_of dicts)
    with (rebuild (convert_column (map model dicts))
            (convert_column (map total_cost dicts))
            (convert_column (map user dicts))
            (convert_column (map total_tokens dicts))).
  destruct (rebuild_columns
              (convert_column (map model dicts))
              (convert_column (map total_cost dicts))
              (convert_column (map user dicts))
              (convert_column (map total_tokens dicts))) as (Hl & Hu & Hc);
    rewrite ?convert_column_length, ?length_map; try reflexivity.
  rewrite Hl, Hu, Hc, convert_column_length, length_map. now repeat split.
Qed.

Lemma rebuild_rows (g : pyval -> pyval) (dicts : list row) :
  rebuild (map model dicts) (map g (map total_cost dicts))
          (map user dicts) (map total_tokens dicts) =
  map (fun r => {| model := model r; total_cost := g (total_cost r);
                   user := user r; total_tokens := total_tokens r |}) dicts.
Proof.
  induction dicts as [|r dicts IH]; [reflexivity|].
  cbn. fold (rebuild (map model dicts) (map g (map total_cost dicts))
               (map user dicts) (map total_tokens dicts)).
  now rewrite IH.
Qed.

Lemma forallb_map {A B} (f : A -> B) (p : B -> bool) (l : list A) :
  forallb p (map f l) = forallb (fun a => p (f a)) l.
Proof. induction l as [|a l IH]; cbn; [reflexivity|now rewrite IH]. Qed.

(** Columns, tried: integers stay, an integer beside a float or beside
    [None] becomes a float, [None] becomes NaN there, and a [str] or a
    [bool] beside a number leaves the column as it is. *)
Example convert_column_cases_tried :
  convert_column [PInt 2; PInt 3] = [PInt 2; PInt 3] /\
  convert_column [PInt 2; PFloat 1.5] = [PFloat 2; PFloat 1.5] /\
  convert_column [PInt 2; PNone] = [PFloat 2; PFloat nan] /\
  convert_column [PNone; PNone] = [PNone; PNone] /\
  convert_column [PInt 2; PStr "56"] = [PInt 2; PStr "56"] /\
  convert_column [PBool true; PInt 1] = [PBool true; PInt 1] /\
  convert_column [PInt (2 ^ 63); PInt (-1)] = [PInt (2 ^ 63); PInt (-1)].
Proof. repeat split; vm_compute; reflexivity. Qed.

(** The frame of dictionaries whose values have the types of the columns:
    only the cost column can change, an [int] becoming a [float] beside a
    [float]. *)
Lemma frame_of_typed_dicts (dicts : list row) :
  forallb typed_dict dicts = true -> DataFrame_of dicts = in_frame dicts.
Proof.
  intros Ht.
  assert (Hall : forall p : row -> bool,
            (forall r, typed_dict r = true -> p r = true) ->
            forallb p dicts = true).
  { intros p Hp. rewrite forallb_forall in *. intros r Hr. apply Hp, Ht, Hr. }
  assert (Hm : forallb plain (map model dicts) = true).
  { rewrite forallb_map. apply Hall. intros r. unfold typed_dict.
    destruct (model r); cbn; intros H; discriminate || reflexivity. }
  assert (Hu : forallb plain (map user dicts) = true).
  { rewrite forallb_map. apply Hall. intros r. unfold typed_dict.
    destruct (user r); rewrite ?andb_false_r; cbn; intros H;
      discriminate || reflexivity. }
  assert (Htok : forallb plain (map total_tokens dicts) = true).
  { rewrite forallb_map. apply Hall. intros r. unfold typed_dict.
    destruct (total_tokens r); rewrite ?andb_false_r; cbn; intros H;
      discriminate || reflexivity. }
  assert (Hc : forallb number64 (map total_cost dicts) = true).
  { rewrite forallb_map. apply Hall. intros r. unfold typed_dict.
    rewrite !andb_true_iff. intros [_ H].
    destruct (total_cost r); discriminate || exact H. }
  change (DataFrame_of dicts)
    with (rebuild (convert_column (map model dicts))
            (convert_column (map total_cost dicts))
            (convert_column (map user dicts))
            (convert_column (map total_tokens dicts))).
  rewrite (convert_column_plain _ Hm), (convert_column_plain _ Hu),
    (convert_column_plain _ Htok), (convert_column_numbers _ Hc).
  unfold in_frame.
  assert (Hint : forallb (fun r => is_int (total_cost r)) dicts =
                 negb (existsb is_float (map total_cost dicts))).
  { clear -Hc. induction dicts as [|r dicts IH]; [reflexivity|].
    cbn [map forallb existsb] in *. apply andb_true_iff in Hc.
    destruct Hc as [Hr Hc]. rewrite (IH Hc).
    destruct (total_cost r); cbn in *; try discriminate; reflexivity. }
  rewrite Hint. destruct (existsb is_float _); cbn [negb].
  - rewrite rebuild_rows. apply map_ext_in. intros r Hr.
    rewrite forallb_forall in Hc.
    specialize (Hc (total_cost r) (in_map total_cost _ _ Hr)).
    destruct (total_cost r); try discriminate; reflexivity.
  - rewrite <- (map_id (map total_cost dicts)), rebuild_rows.
    rewrite <- (map_id dicts) at 2. apply map_ext. now intros [].
Qed.

End NormalizeFacts.

(* ================================================================== *)
(** ** [process_data]: the properties of the specification *)

Module NormalizeClaims.
Import Normalize Spec NormalizeFacts.

Lemma errors_of_kinds (errs : list St.call) :
  Forall (fun c => St.kind_of c = St.MissingField \/
                   St.kind_of c = St.InvalidNumeric) errs ->
  errors errs = errs.
Proof.
  unfold errors. induction 1 as [|c errs Hc _ IH]; cbn; [reflexivity|].
  rewrite IH. destruct c; cbn in *; try reflexivity.
  destruct Hc; discriminate.
Qed.

Lemma errors_with_warning (errs : list St.call) :
  errors (errs ++ [St.warning_no_data]) = errors errs.
Proof.
  unfold errors. rewrite filter_app. cbn. apply app_nil_r.
Qed.

Lemma process_data_dict (d : list (string * pyval)) (st : locals) :
  loop (PDict d) (map (fun kv => PStr (fst kv)) d) initial = inr st ->
  process_data (PDict d) =
    inr (DataFrame_of (processed_data st), shown st ++ no_data (processed_data st)).
Proof.
  intros H. unfold process_data. cbn [iterate bind ret]. rewrite H.
  cbn [bind]. destruct (processed_data st); cbn [no_data]; [reflexivity|].
  now rewrite app_nil_r.
Qed.

Lemma record_of_user (uv : string * pyval) (r : row) :
  record_of uv = Some r -> user r = PStr (fst uv).
Proof.
  unfold record_of. destruct (first_of (snd uv)) as [e|]; [|discriminate].
  destruct (dict_get "model" e); [|discriminate].
  destruct (dict_get "total_cost" e) as [c|]; [|discriminate].
  destruct (dict_get "input_tokens" e) as [[]|]; try discriminate.
  destruct (dict_get "output_tokens" e) as [[]|]; try discriminate.
  destruct (recorded_cost c); [|discriminate].
  intros H. inversion H. reflexivity.
Qed.

Lemma records_found (users : list (string * pyval)) (dicts : list row) :
  map Some dicts = map record_of users ->
  flat_map (fun uv => match record_of uv with Some r => [r] | None => [] end) users
    = dicts /\
  map user dicts = map (fun uv => PStr (fst uv)) users.
Proof.
  revert dicts. induction users as [|uv users IH]; intros [|r dicts];
    cbn [map flat_map]; try discriminate; [now split|].
  intros H. injection H as Hr Hrest.
  destruct (IH dicts Hrest) as [Hf Hu].
  rewrite <- Hr, Hf, Hu, (record_of_user uv r (eq_sym Hr)). now split.
Qed.

Lemma in_frame_users (recs : list row) : map user (in_frame recs) = map user recs.
Proof.
  unfold in_frame. destruct (forallb _ recs); [reflexivity|].
  rewrite map_map. reflexivity.
Qed.

(** C1: a failure met before [record] is first assigned is caught, but
    the handler cannot format its message: on [{"a@x.com": []}] the
    [IndexError] is replaced by an [UnboundLocalError] that leaves
    [process_data].  After a user whose entry was read, the same failure
    is reported, with the previous user's record as its context. *)
Theorem unread_entry_escapes :
  process_data Examples.empty_sequence = inl (UnboundLocalError "record") /\
  process_data Examples.empty_sequence_second =
    inr ([{| model := PStr "gpt-4"; total_cost := PFloat 2;
             user := PStr "b@x.com"; total_tokens := PInt 20 |}],
         [St.error_occurred
            (Examples.usage_entry (PStr "gpt-4") (PFloat 2) (PInt 10) (PInt 10))
            IndexError]).
Proof. split; reflexivity. Qed.

(** C2: the cost of a record is not always the float coercion of the
    entry's cost.  On a document whose only cost is the JSON integer 2 the
    frame holds the [int] 2 in an integer column, where the coercion is
    the [float] 2.0: the comment of line 60 says a float is meant, but
    only a [str] is converted.  Beside a user whose cost is a [float], the
    same integer is a [float] in the frame, the column being float64. *)
Theorem int_cost_is_not_coerced :
  (exists r,
     process_data (PDict Examples.int_cost) = inr ([r], []) /\
     float_coercion (PInt 2) = inr 2%float /\
     total_cost r = PInt 2 /\
     total_cost r <> PFloat 2%float) /\
  (exists r1 r2,
     process_data (PDict Examples.int_and_float_costs) = inr ([r1; r2], []) /\
     total_cost r1 = PFloat 2%float /\
     total_cost r2 = PFloat 1.5%float).
Proof.
  split.
  - eexists. repeat split; try reflexivity. cbn. discriminate.
  - do 2 eexists. repeat split; vm_compute; reflexivity.
Qed.

(** C3: in a document whose users' first entries are each well formed
    (the four fields, a model name, a cost that is a number or a numeric
    string, integer token counts within 64 bits) or malformed (a required
    field missing, or a string cost that is not numeric), [process_data]
    returns the records of exactly the well-formed users, in the order of
    the document and as the frame types them, and reports exactly the
    malformed ones, each once and with its entry, as a missing field or an
    invalid number. *)
Theorem process_data_drops_malformed (d : list (string * pyval)) :
  NoDup (map fst d) ->
  forallb (fun uv => well_formed_user uv || malformed_user uv) d = true ->
  exists rows shown,
    process_data (PDict d) = inr (rows, shown) /\
    rows = in_frame (records d) /\
    map user rows = map (fun uv => PStr (fst uv)) (filter well_formed_user d) /\
    map St.context_of (errors shown) =
      map (fun uv => option_map PDict (first_of (snd uv)))
          (filter malformed_user d) /\
    Forall (fun c => St.kind_of c = St.MissingField \/
                     St.kind_of c = St.InvalidNumeric) (errors shown) /\
    (existsb malformed_user d = true -> errors shown <> []).
Proof.
  intros Hnd Hall.
  destruct (loop_users d Hnd d (incl_refl d) Hall initial)
    as (st & dicts & errs & Hloop & Hp & Hs & Hr & Ht & Hc & Hk).
  cbn in Hp, Hs.
  assert (He : errors (shown st ++ no_data (processed_data st)) = errs).
  { rewrite Hs. destruct (processed_data st); cbn [no_data].
    - rewrite errors_with_warning. now apply errors_of_kinds.
    - rewrite app_nil_r. now apply errors_of_kinds. }
  destruct (records_found _ _ Hr) as [Hrecs Husers].
  exists (DataFrame_of dicts), (shown st ++ no_data (processed_data st)).
  rewrite (process_data_dict d st Hloop), He, Hp.
  rewrite (frame_of_typed_dicts dicts Ht), in_frame_users.
  unfold records. rewrite Hrecs.
  repeat split; try assumption.
  intros Hex Hnil. rewrite Hnil in Hc.
  apply existsb_exists in Hex. destruct Hex as (uv & Hin & Huv).
  assert (Hf : In uv (filter malformed_user d)) by (apply filter_In; now split).
  destruct (filter malformed_user d); [contradiction|discriminate].
Qed.

(** C5: token counts that are not numbers are not reported as invalid
    numbers.  Two strings are concatenated and the row is kept; a [null]
    count raises a [TypeError], which the last handler reports. *)
Theorem non_numeric_tokens_not_invalid_numeric :
  process_data Examples.string_tokens =
    inr ([{| model := PStr "gpt-4"; total_cost := PFloat 1;
             user := PStr "a@x.com"; total_tokens := PStr "56" |}], []) /\
  process_data Examples.null_tokens =
    inr ([], [St.error_occurred
                (Examples.usage_entry (PStr "gpt-4") (PFloat 1) PNone (PInt 6))
                TypeError;
              St.warning_no_data]).
Proof. split; reflexivity. Qed.

(** C10: an entry whose [total_cost] is neither a string nor a number,
    with the other three fields present and token counts that add: the
    iteration shows nothing and appends a row that carries the cost as it
    is. *)
Theorem non_numeric_cost_kept (data user_email : pyval) (st : locals)
  (e : list (string * pyval)) (m c i o t : pyval) :
  first_entry data user_email = inr (PDict e) ->
  dict_get "model" e = Some m ->
  dict_get "total_cost" e = Some c ->
  is_str c = false -> is_number c = false ->
  dict_get "input_tokens" e = Some i ->
  dict_get "output_tokens" e = Some o ->
  add i o = inr t ->
  iteration data st user_email =
    inr {| record := Some (PDict e);
           processed_data := processed_data st ++
             [{| model := m; total_cost := c; user := user_email; total_tokens := t |}];
           shown := shown st |}.
Proof.
  intros Hread Hm Hc Hstr _ Hi Ho Hadd.
  rewrite (iteration_entry_read _ _ _ _ Hread).
  unfold build_row, getitem. rewrite Hm, Hc, Hi, Ho. cbn [bind ret].
  destruct c; try discriminate; cbn [ensure_float bind ret]; now rewrite Hadd.
Qed.

(** C4, as amended: text that is not JSON is reported as invalid JSON by
    [load_data] and [process_data] is not run; [null] is taken as no data;
    an empty array or an empty string gives the empty frame and the
    warning; a number or a boolean at the top level is not iterable, and
    the [TypeError] of the [for] statement leaves [process_data]. *)
Theorem top_level_not_a_mapping :
  load_and_process (inl JSONDecodeError) = inr (None, [St.error_invalid_json]) /\
  load_and_process (inr PNone) = inr (None, []) /\
  load_and_process (inr (PList [])) = inr (Some [], [St.warning_no_data]) /\
  load_and_process (inr (PStr "")) = inr (Some [], [St.warning_no_data]) /\
  (forall z, load_and_process (inr (PInt z)) = inl TypeError) /\
  (forall f, load_and_process (inr (PFloat f)) = inl TypeError) /\
  (forall b, load_and_process (inr (PBool b)) = inl TypeError).
Proof. repeat split; reflexivity. Qed.

(** C4, the claim as stated, fails on the JSON text [5]: it is loaded, it
    is not [None], and iterating it raises a [TypeError] outside the
    [try]. *)
Lemma top_level_number_escapes :
  Loader.load_data (inr (PInt 5)) = inr (PInt 5, []) /\
  process_data (PInt 5) = inl TypeError /\
  load_and_process (inr (PInt 5)) = inl TypeError.
Proof. repeat split; reflexivity. Qed.

Lemma process_data_drops_malformed_witness :
  exists rows shown,
    process_data (PDict Examples.mixed) = inr (rows, shown) /\
    rows = in_frame (records Examples.mixed) /\
    map user rows =
      map (fun uv => PStr (fst uv)) (filter well_formed_user Examples.mixed) /\
    map St.context_of (errors shown) =
      map (fun uv => option_map PDict (first_of (snd uv)))
          (filter malformed_user Examples.mixed) /\
    Forall (fun c => St.kind_of c = St.MissingField \/
                     St.kind_of c = St.InvalidNumeric) (errors shown) /\
    (existsb malformed_user Examples.mixed = true -> errors shown <> []).
Proof.
  apply (process_data_drops_malformed Examples.mixed).
  - repeat constructor; cbn; intuition discriminate.
  - reflexivity.
Defined.

Lemma non_numeric_cost_kept_witness :
  iteration Examples.null_cost initial (PStr "a@x.com") =
    inr {| record := Some (Examples.usage_entry (PStr "gpt-4") PNone (PInt 100) (PInt 50));
           processed_data :=
             [{| model := PStr "gpt-4"; total_cost := PNone;
                 user := PStr "a@x.com"; total_tokens := PInt 150 |}];
           shown := [] |}.
Proof.
  apply (non_numeric_cost_kept Examples.null_cost (PStr "a@x.com") initial
           [("model", PStr "gpt-4"); ("total_cost", PNone);
            ("input_tokens", PInt 100); ("output_tokens", PInt 50)]
           (PStr "gpt-4") PNone (PInt 100) (PInt 50) (PInt 150));
    reflexivity.
Defined.

End NormalizeClaims.

(* ================================================================== *)
(** ** [plot_data]: the properties of the specification *)

Module FrameClaims.
Import Frame FrameFacts FrameSpec.


Section ModelTable.
Context {K : Type} (isna : K -> bool) (leb : K -> K -> bool)
  (sum : list NormalizedRecord -> K).
Variable sort_by : sorter.
Hypothesis sort_by_sorts : sorts sort_by.
Hypothesis leb_total : forall a b,
  isna a = false -> isna b = false -> leb a b = true \/ leb b a = true.
Hypothesis leb_trans : forall a b c,
  leb a b = true -> leb b c = true -> leb a c = true.



End ModelTable.




(** C7: on an empty record set the two model tables are empty and the
    users table is the single row [Total] with zero cost and zero tokens;
    an empty document gives that record set, with the warning. *)
Theorem plot_data_empty :
  plot_data [] =
    ([], [], [{| u_user := "Total"; u_total_cost := 0; u_total_tokens := 0 |}]) /\
  Normalize.process_data (PDict []) = inr ([], [St.warning_no_data]) /\
  typed_frame [] = Some [].
Proof. repeat split; reflexivity. Qed.

(** *** The users table *)

Section UsersTable.
Variable sort_by : sorter.
Variables group_sum column_sum : list float -> float.
Hypothesis sort_by_sorts : sorts sort_by.

Definition user_row (kv : string * (float * Z)) : UserRow :=
  {| u_user := fst kv; u_total_cost := fst (snd kv); u_total_tokens := snd (snd kv) |}.

Definition user_groups (data : list NormalizedRecord) : list (string * (float * Z)) :=
  groupby_sum user
    (fun g => (group_sum (map total_cost g), int_sum (map total_tokens g))) data.

Lemma users_sorted_perm (data : list NormalizedRecord) :
  Permutation (map user_row (user_groups data))
              (users_sorted_with sort_by group_sum data).
Proof.
  exact (proj1 (sort_by_sorts _ _ u_total_cost is_nan PrimFloat.leb
                  (map user_row (user_groups data)))).
Qed.

Lemma users_sorted_keys (data : list NormalizedRecord) :
  map u_user (map user_row (user_groups data)) = group_keys user data.
Proof.
  rewrite map_map. cbn. apply groupby_sum_keys.
Qed.

Lemma users_sorted_tokens (data : list NormalizedRecord) :
  Permutation
    (map (fun k => int_sum (map total_tokens (group user data k))) (group_keys user data))
    (map u_total_tokens (users_sorted_with sort_by group_sum data)).
Proof.
  rewrite <- (Permutation_map u_total_tokens (users_sorted_perm data)).
  unfold user_groups, groupby_sum. rewrite !map_map. reflexivity.
Qed.

(** The token total of the [Total] row is also the sum over all the
    records. *)
Lemma total_tokens_all_records (data : list NormalizedRecord) :
  u_total_tokens (total_row_with column_sum (users_sorted_with sort_by group_sum data))
  = int_sum (map total_tokens data).
Proof.
  unfold total_row_with. cbn [u_total_tokens].
  rewrite <- (int_sum_perm _ _ (users_sorted_tokens data)).
  apply int_sum_groups.
  - apply group_keys_nodup.
  - intros r Hr. apply group_keys_in. now apply in_map.
Qed.

Lemma users_sorted_rows (data : list NormalizedRecord) :
  NoDup (map u_user (users_sorted_with sort_by group_sum data)) /\
  (forall u, In u (map u_user (users_sorted_with sort_by group_sum data)) <->
             In u (map user data)) /\
  (forall r, In r (users_sorted_with sort_by group_sum data) ->
     u_total_cost r =
       group_sum (map total_cost (filter (fun x => String.eqb (user x) (u_user r)) data)) /\
     u_total_tokens r =
       int_sum (map total_tokens (filter (fun x => String.eqb (user x) (u_user r)) data))).
Proof.
  pose proof (users_sorted_perm data) as Hperm.
  pose proof (users_sorted_keys data) as Hkeys.
  repeat split.
  - eapply Permutation_NoDup; [apply Permutation_map, Hperm|].
    rewrite Hkeys. apply group_keys_nodup.
  - intros Hu. apply group_keys_in. rewrite <- Hkeys.
    eapply Permutation_in; [apply Permutation_map, Permutation_sym, Hperm|exact Hu].
  - intros Hu. apply group_keys_in in Hu. rewrite <- Hkeys in Hu.
    eapply Permutation_in; [apply Permutation_map, Hperm|exact Hu].
  - apply (Permutation_in _ (Permutation_sym Hperm)) in H.
    apply in_map_iff in H. destruct H as ([k [c t]] & <- & Hin).
    apply groupby_sum_in in Hin. destruct Hin as [_ E]. now inversion E.
  - apply (Permutation_in _ (Permutation_sym Hperm)) in H.
    apply in_map_iff in H. destruct H as ([k [c t]] & <- & Hin).
    apply groupby_sum_in in Hin. destruct Hin as [_ E]. now inversion E.
Qed.

End UsersTable.

(** The token total with the sort and the sums of the examples. *)
Lemma total_tokens_grand_sum (data : list NormalizedRecord) :
  u_total_tokens (total_row (users_sorted data)) = int_sum (map total_tokens data).
Proof.
  exact (total_tokens_all_records stable_sort float_sum float_sum stable_sort_sorts data).
Qed.




(** C9: the example document gives the two records; the cost table is
    the single row [gpt-4] with 3.5; the users table lists [b@x.com], then
    [a@x.com], then [Total] with 3.5 and 170. *)
Theorem end_to_end_example :
  exists rows,
    Normalize.process_data (PDict Examples.two_users) = inr (rows, []) /\
    typed_frame rows = Some two_records /\
    data_models_cost two_records = [("gpt-4", 3.5%float)] /\
    data_users two_records =
      [ {| u_user := "b@x.com"; u_total_cost := 2; u_total_tokens := 20 |};
        {| u_user := "a@x.com"; u_total_cost := 1.5; u_total_tokens := 150 |};
        {| u_user := "Total"; u_total_cost := 3.5; u_total_tokens := 170 |} ].
Proof.
  eexists. repeat split; vm_compute; reflexivity.
Qed.

End FrameClaims.

(* ================================================================== *)
(** ** [process_data]: what the loop itself guarantees *)

Module NormalizeExtras.
Import Normalize Spec NormalizeFacts Extra.

(** *** One iteration *)

Lemma message_is_error (e : exn) (rec : pyval) : is_error (message e rec) = true.
Proof. destruct e; reflexivity. Qed.

(** An item whose entry is read is a key or an index: not [None], not a
    [float]. *)
Lemma first_entry_plain (data u rec : pyval) :
  first_entry data u = inr rec -> plain u = true.
Proof.
  unfold first_entry, getitem.
  destruct data, u; cbn; try discriminate; reflexivity.
Qed.

(** An iteration that ends appends one row and shows nothing, or shows one
    message and appends nothing. *)
Lemma iteration_outcome (data u : pyval) (st st' : locals) :
  iteration data st u = inr st' ->
  (exists r, user r = u /\ plain u = true /\ is_str (total_cost r) = false /\
             processed_data st' = processed_data st ++ [r] /\
             shown st' = shown st) \/
  (exists c, is_error c = true /\
             processed_data st' = processed_data st /\
             shown st' = shown st ++ [c]).
Proof.
  unfold iteration, try_body.
  destruct (first_entry data u) as [e|rec] eqn:Hread.
  - unfold except. destruct (record st); [|discriminate].
    intros H. inversion H; subst; cbn. right.
    eexists. split; [apply message_is_error|]. split; reflexivity.
  - destruct (build_row u rec) as [e|r] eqn:Hrow.
    + unfold except. cbn [record]. intros H. inversion H; subst; cbn. right.
      eexists. split; [apply message_is_error|]. split; reflexivity.
    + intros H. inversion H; subst; cbn. left. exists r.
      split; [|split; [exact (first_entry_plain _ _ _ Hread)|]].
      * revert Hrow. unfold build_row.
        destruct (getitem rec (PStr "model")); [discriminate|]. cbn [bind].
        destruct (getitem rec (PStr "total_cost")) as [|c]; [discriminate|]. cbn [bind].
        destruct (ensure_float c); [discriminate|]. cbn [bind].
        destruct (getitem rec (PStr "input_tokens")); [discriminate|]. cbn [bind].
        destruct (getitem rec (PStr "output_tokens")); [discriminate|]. cbn [bind].
        destruct (add _ _); [discriminate|]. cbn.
        intros E. inversion E. reflexivity.
      * repeat split. revert Hrow. unfold build_row.
        destruct (getitem rec (PStr "model")); [discriminate|]. cbn [bind].
        destruct (getitem rec (PStr "total_cost")) as [|c]; [discriminate|]. cbn [bind].
        destruct (ensure_float c) as [|c'] eqn:Ec; [discriminate|]. cbn [bind].
        destruct (getitem rec (PStr "input_tokens")); [discriminate|]. cbn [bind].
        destruct (getitem rec (PStr "output_tokens")); [discriminate|]. cbn [bind].
        destruct (add _ _); [discriminate|]. cbn.
        intros E. inversion E. cbn.
        destruct c; cbn in Ec; try (inversion Ec; reflexivity).
        destruct (float_of_str s); inversion Ec. reflexivity.
Qed.

(** *** The loop *)

Lemma loop_outcome (data : pyval) (items : list pyval) (st st' : locals) :
  loop data items st = inr st' ->
  exists rows msgs,
    processed_data st' = processed_data st ++ rows /\
    shown st' = shown st ++ msgs /\
    (List.length rows + List.length msgs = List.length items)%nat /\
    subseq (map user rows) items /\
    forallb plain (map user rows) = true /\
    Forall (fun r => is_str (total_cost r) = false) rows /\
    Forall (fun c => is_error c = true) msgs.
Proof.
  revert st. induction items as [|u items IH]; intros st; cbn [loop].
  - intros H. inversion H; subst. exists [], [].
    rewrite !app_nil_r. repeat split; constructor.
  - destruct (iteration data st u) as [e|st1] eqn:Hit; [discriminate|]. cbn [bind].
    intros Hloop.
    destruct (IH st1 Hloop) as (rows & msgs & Hp & Hs & Hlen & Hsub & Hpl & Hstr & Herr).
    destruct (iteration_outcome data u st st1 Hit)
      as [(r & Hu & Hplain & Hc & Hp1 & Hs1)|(c & Hc & Hp1 & Hs1)].
    + exists (r :: rows), msgs. rewrite Hp, Hs, Hp1, Hs1, <- app_assoc.
      repeat split; try assumption.
      * cbn. lia.
      * cbn [map]. rewrite Hu. now constructor.
      * cbn [map forallb]. now rewrite Hu, Hplain, Hpl.
      * now constructor.
    + exists rows, (c :: msgs). rewrite Hp, Hs, Hp1, Hs1, <- app_assoc.
      repeat split; try assumption.
      * cbn. lia.
      * now constructor.
      * now constructor.
Qed.

Lemma errors_all (msgs : list St.call) :
  Forall (fun c => is_error c = true) msgs -> errors msgs = msgs.
Proof.
  unfold errors. induction 1 as [|c msgs Hc _ IH]; cbn; [reflexivity|].
  now rewrite Hc, IH.
Qed.

(** The frame keeps the number of the dictionaries and their users, and
    puts no [str] in a column that held none. *)
Lemma convert_column_not_str (col : list pyval) :
  Forall (fun v => is_str v = false) col ->
  Forall (fun v => is_str v = false) (convert_column col).
Proof.
  intros H. destruct (convert_column_cases col) as [-> | ->]; [assumption|].
  apply Forall_map. revert H. apply Forall_impl.
  intros v Hv. destruct v; try discriminate; try reflexivity.
  cbn. destruct (float_of_int z); reflexivity.
Qed.

Lemma frame_of_dicts (dicts : list row) :
  forallb plain (map user dicts) = true ->
  Forall (fun r => is_str (total_cost r) = false) dicts ->
  List.length (DataFrame_of dicts) = List.length dicts /\
  map user (DataFrame_of dicts) = map user dicts /\
  Forall (fun r => is_str (total_cost r) = false) (DataFrame_of dicts).
Proof.
  intros Hplain Hstr.
  destruct (frame_columns dicts) as (Hlen & Hu & Hc).
  repeat split; [exact Hlen| |].
  - now rewrite Hu, convert_column_plain.
  - apply Forall_map with (f := total_cost) (P := fun v => is_str v = false).
    rewrite Hc. apply convert_column_not_str. now apply Forall_map.
Qed.

(** What [process_data] returns, read off the loop. *)
Lemma process_data_returns (data : pyval) (rows : DataFrame) (shown : list St.call) :
  process_data data = inr (rows, shown) ->
  exists items,
    iterate data = inr items /\
    shown = errors shown ++ no_data rows /\
    (List.length rows + List.length (errors shown) = List.length items)%nat /\
    subseq (map user rows) items /\
    Forall (fun r => is_str (total_cost r) = false) rows.
Proof.
  unfold process_data.
  destruct (iterate data) as [e|items]; [discriminate|]. cbn [bind].
  destruct (loop data items initial) as [e|st] eqn:Hloop; [discriminate|]. cbn [bind].
  destruct (loop_outcome data items initial st Hloop)
    as (rows' & msgs & Hp & Hs & Hlen & Hsub & Hplain & Hstr & Herr).
  cbn in Hp, Hs. rewrite Hp, Hs.
  assert (He : errors (msgs ++ no_data rows') = msgs).
  { destruct rows'; cbn [no_data].
    - unfold errors. rewrite filter_app. cbn. rewrite app_nil_r. now apply errors_all.
    - rewrite app_nil_r. now apply errors_all. }
  intros H. exists items. split; [reflexivity|].
  destruct rows' as [|r rows'].
  - inversion H; subst. cbn [no_data] in He. rewrite He. repeat split; assumption.
  - cbn [ret] in H. inversion H; subst. cbn [no_data] in He. rewrite app_nil_r in He.
    destruct (frame_of_dicts (r :: rows') Hplain Hstr) as (Hl & Hu & Hc).
    rewrite He, Hl, Hu.
    assert (Hnd : no_data (DataFrame_of (r :: rows')) = []).
    { destruct (DataFrame_of (r :: rows')); [discriminate Hl|reflexivity]. }
    rewrite Hnd, app_nil_r. repeat split; assumption.
Qed.

(** X2: every item of the iteration ends as one row or as one reported
    error: when [process_data] returns, the rows and the errors shown
    together are as many as the items, so nothing is dropped silently. *)
Theorem every_item_is_a_row_or_an_error (data : pyval) (rows : DataFrame)
  (shown : list St.call) :
  process_data data = inr (rows, shown) ->
  exists items,
    iterate data = inr items /\
    (List.length rows + List.length (errors shown) = List.length items)%nat.
Proof.
  intros H. destruct (process_data_returns data rows shown H) as (items & Hit & _ & Hlen & _).
  now exists items.
Qed.

Lemma every_item_is_a_row_or_an_error_witness :
  exists items,
    iterate (PDict Examples.mixed) = inr items /\
    (List.length [row_b] + List.length (errors mixed_shown) = List.length items)%nat.
Proof.
  apply (every_item_is_a_row_or_an_error (PDict Examples.mixed) [row_b] mixed_shown).
  reflexivity.
Defined.

(** X3: what is shown is the errors, followed by the warning exactly when
    no row was produced; the warning is never shown beside a row. *)
Theorem warning_exactly_when_no_rows (data : pyval) (rows : DataFrame)
  (shown : list St.call) :
  process_data data = inr (rows, shown) ->
  shown = errors shown ++ no_data rows /\
  (In St.warning_no_data shown <-> rows = []).
Proof.
  intros H. destruct (process_data_returns data rows shown H) as (items & _ & Hs & _).
  split; [exact Hs|]. rewrite Hs at 1. rewrite in_app_iff. split.
  - intros [Hin|Hin].
    + apply filter_In in Hin. destruct Hin as [_ Hin]. discriminate.
    + destruct rows; [reflexivity|contradiction].
  - intros ->. right. now left.
Qed.

Lemma warning_exactly_when_no_rows_witness :
  [St.error_occurred
     (Examples.usage_entry (PStr "gpt-4") (PFloat 1) PNone (PInt 6)) TypeError;
   St.warning_no_data] =
  errors [St.error_occurred
            (Examples.usage_entry (PStr "gpt-4") (PFloat 1) PNone (PInt 6)) TypeError;
          St.warning_no_data] ++ no_data [] /\
  (In St.warning_no_data
     [St.error_occurred
        (Examples.usage_entry (PStr "gpt-4") (PFloat 1) PNone (PInt 6)) TypeError;
      St.warning_no_data] <-> @nil row = []).
Proof.
  apply (warning_exactly_when_no_rows Examples.null_tokens).
  reflexivity.
Defined.

(** X4: the users of the rows are items of the iteration, each taken at
    most once and in the order of the iteration. *)
Theorem rows_follow_the_items (data : pyval) (rows : DataFrame)
  (shown : list St.call) :
  process_data data = inr (rows, shown) ->
  exists items, iterate data = inr items /\ subseq (map user rows) items.
Proof.
  intros H. destruct (process_data_returns data rows shown H) as (items & Hit & _ & _ & Hsub & _).
  now exists items.
Qed.

Lemma rows_follow_the_items_witness :
  exists items,
    iterate (PDict Examples.mixed) = inr items /\ subseq (map user [row_b]) items.
Proof.
  apply (rows_follow_the_items (PDict Examples.mixed) [row_b] mixed_shown).
  reflexivity.
Defined.

Lemma subseq_in {A} (l1 l2 : list A) (x : A) :
  subseq l1 l2 -> In x l1 -> In x l2.
Proof.
  induction 1 as [|y l1 l2 _ IH|y l1 l2 _ IH]; intros Hin.
  - contradiction.
  - right. now apply IH.
  - destruct Hin as [<-|Hin]; [now left|right; now apply IH].
Qed.

Lemma subseq_nodup {A} (l1 l2 : list A) :
  subseq l1 l2 -> NoDup l2 -> NoDup l1.
Proof.
  induction 1 as [|y l1 l2 _ IH|y l1 l2 Hsub IH]; intros Hnd.
  - constructor.
  - inversion Hnd; subst. now apply IH.
  - inversion Hnd as [|? ? Hy Hl2]; subst. constructor; [|now apply IH].
    intros Hin. apply Hy. now apply (subseq_in l1 l2).
Qed.

Lemma nodup_map_str (keys : list string) : NoDup keys -> NoDup (map PStr keys).
Proof.
  induction 1 as [|k keys Hk _ IH]; cbn; constructor; [|assumption].
  intros Hin. apply in_map_iff in Hin. destruct Hin as (k' & E & Hin).
  inversion E; subst. contradiction.
Qed.

(** X5: from a [dict], no user gets two rows: the users of the frame are
    distinct keys of the document. *)
Theorem one_row_per_key (d : list (string * pyval)) (rows : DataFrame)
  (shown : list St.call) :
  NoDup (map fst d) ->
  process_data (PDict d) = inr (rows, shown) ->
  NoDup (map user rows) /\
  forall r, In r rows -> exists k, user r = PStr k /\ In k (map fst d).
Proof.
  intros Hnd H.
  destruct (process_data_returns _ rows shown H) as (items & Hit & _ & _ & Hsub & _).
  cbn in Hit. inversion Hit; subst. split.
  - apply (subseq_nodup _ _ Hsub).
    rewrite <- (map_map fst PStr). now apply nodup_map_str.
  - intros r Hr. apply (in_map user) in Hr.
    apply (subseq_in _ _ (user r) Hsub) in Hr.
    apply in_map_iff in Hr. destruct Hr as ([k v] & E & Hin).
    exists k. split; [now symmetry|]. apply in_map_iff. now exists (k, v).
Qed.

Lemma one_row_per_key_witness :
  NoDup (map user [row_b]) /\
  forall r, In r [row_b] -> exists k, user r = PStr k /\ In k (map fst Examples.mixed).
Proof.
  apply (one_row_per_key Examples.mixed [row_b] mixed_shown).
  - repeat constructor; cbn; intuition discriminate.
  - reflexivity.
Defined.

(** X6: no row of the frame holds a [str] as its cost: a string cost is
    either converted or its user is dropped. *)
Theorem no_row_holds_a_str_cost (data : pyval) (rows : DataFrame)
  (shown : list St.call) :
  process_data data = inr (rows, shown) ->
  Forall (fun r => is_str (total_cost r) = false) rows.
Proof.
  intros H. destruct (process_data_returns data rows shown H) as (items & _ & _ & _ & _ & Hstr).
  exact Hstr.
Qed.

Lemma no_row_holds_a_str_cost_witness :
  Forall (fun r => is_str (total_cost r) = false) [row_b].
Proof.
  apply (no_row_holds_a_str_cost (PDict Examples.mixed) [row_b] mixed_shown).
  reflexivity.
Defined.

(** X7: when a user's entry cannot be read after an earlier record was
    read, the failure is reported with that earlier record as its context
    (the variable [record] still holds it), and the loop goes on. *)
Theorem unread_entry_reported_with_previous_record (data u r0 : pyval)
  (st : locals) (e : exn) :
  record st = Some r0 ->
  first_entry data u = inl e ->
  iteration data st u =
    inr {| record := Some r0;
           processed_data := processed_data st;
           shown := shown st ++ [message e r0] |} /\
  St.context_of (message e r0) = Some r0.
Proof.
  intros Hb Hu. split.
  - unfold iteration, try_body, except. rewrite Hu, Hb. reflexivity.
  - destruct e; reflexivity.
Qed.

Lemma unread_entry_reported_with_previous_record_witness :
  iteration Examples.empty_sequence_second
    {| record := Some (PInt 7); processed_data := []; shown := [] |}
    (PStr "a@x.com") =
    inr {| record := Some (PInt 7);
           processed_data := [];
           shown := [] ++ [message IndexError (PInt 7)] |} /\
  St.context_of (message IndexError (PInt 7)) = Some (PInt 7).
Proof.
  apply (unread_entry_reported_with_previous_record Examples.empty_sequence_second
           (PStr "a@x.com") (PInt 7)
           {| record := Some (PInt 7); processed_data := []; shown := [] |} IndexError);
    reflexivity.
Defined.

(** *** Only the first entry of a sequence is read *)

Lemma dict_get_first_entries (k : string) (d : list (string * pyval)) :
  dict_get k (first_entries d) = option_map first_only (dict_get k d).
Proof.
  induction d as [|[k' v] d IH]; cbn; [reflexivity|].
  destruct (String.eqb k k'); [reflexivity|exact IH].
Qed.

Lemma first_entry_first_entries (d : list (string * pyval)) (u : pyval) :
  first_entry (PDict (first_entries d)) u = first_entry (PDict d) u.
Proof.
  unfold first_entry. destruct u; try reflexivity. cbn [getitem].
  rewrite dict_get_first_entries.
  destruct (dict_get s d) as [v|]; [|reflexivity]. cbn [option_map bind ret].
  destruct v as [| | | | |[|x l]|]; reflexivity.
Qed.

Lemma loop_same_entries (data data' : pyval) (items : list pyval) (st : locals) :
  (forall u, first_entry data' u = first_entry data u) ->
  loop data' items st = loop data items st.
Proof.
  intros Hsame. revert st. induction items as [|u items IH]; intros st; [reflexivity|].
  cbn [loop]. unfold iteration, try_body. rewrite Hsame.
  destruct (first_entry data u) as [e|rec].
  - destruct (except e st); [reflexivity|]. cbn [bind]. apply IH.
  - destruct (build_row u rec).
    + destruct (except _ _); [reflexivity|]. cbn [bind]. apply IH.
    + cbn [bind]. apply IH.
Qed.

(** X8: the entries after the first one of each user make no difference:
    the document cut down to the first entries gives the same rows and
    the same messages (or the same exception). *)
Theorem later_entries_are_ignored (d : list (string * pyval)) :
  process_data (PDict (first_entries d)) = process_data (PDict d).
Proof.
  assert (Hkeys : map (fun kv => PStr (fst kv)) (first_entries d) =
                  map (fun kv : string * pyval => PStr (fst kv)) d).
  { unfold first_entries. rewrite map_map. reflexivity. }
  unfold process_data. cbn [iterate bind ret]. rewrite Hkeys.
  now rewrite (loop_same_entries (PDict d) (PDict (first_entries d)) _ initial
                 (first_entry_first_entries d)).
Qed.

End NormalizeExtras.

(* ================================================================== *)
(** ** [plot_data]: what the tables themselves guarantee *)

Module FrameExtras.
Import Frame FrameFacts FrameSpec Chart.

(** *** The users table and the chart *)

Lemma users_sorted_users (data : list NormalizedRecord) (u : string) :
  In u (map u_user (users_sorted data)) <-> In u (map user data).
Proof.
  exact (proj1 (proj2 (FrameClaims.users_sorted_rows stable_sort float_sum
                         stable_sort_sorts data)) u).
Qed.

(** X9: the token count of the [Total] row is the sum of the token counts
    of all the records, whatever their users and their order. *)
Theorem total_row_sums_all_tokens (data : list NormalizedRecord) :
  exists rows total,
    data_users data = rows ++ [total] /\
    u_total_tokens total = int_sum (map total_tokens data).
Proof.
  exists (users_sorted data), (total_row (users_sorted data)).
  split; [reflexivity|]. apply FrameClaims.total_tokens_grand_sum.
Qed.

(** X10: when no user is named [Total], the chart of cost per user shows
    exactly the per-user rows of the table, in the table's order. *)
Theorem chart_shows_every_user (data : list NormalizedRecord) :
  (forall r, In r data -> user r <> "Total") ->
  fig_users_rows data = users_sorted data.
Proof.
  intros Hno. unfold fig_users_rows, data_users, data_users_with.
  fold (users_sorted data). rewrite filter_app.
  cbn [filter total_row_with u_user String.eqb Ascii.eqb Bool.eqb negb andb].
  rewrite app_nil_r.
  apply forallb_filter_id. apply forallb_forall. intros r Hr.
  apply negb_true_iff. apply String.eqb_neq. intros E.
  assert (Hin : In "Total" (map user data)).
  { apply users_sorted_users. rewrite <- E. now apply in_map. }
  apply in_map_iff in Hin. destruct Hin as (x & Hx & Hin). now apply (Hno x).
Qed.

Lemma chart_shows_every_user_witness :
  fig_users_rows two_records = users_sorted two_records.
Proof.
  apply (chart_shows_every_user two_records).
  intros r [<-|[<-|[]]]; cbn; discriminate.
Defined.

(** X11: a user who is named [Total] has a row in the table, and the chart
    leaves that row out together with the synthetic one. *)
Theorem chart_drops_a_user_named_total (data : list NormalizedRecord) :
  In "Total" (map user data) ->
  exists r, In r (users_sorted data) /\ u_user r = "Total" /\
            ~ In r (fig_users_rows data).
Proof.
  intros Hin. apply users_sorted_users in Hin.
  apply in_map_iff in Hin. destruct Hin as (r & Hu & Hr).
  exists r. repeat split; try assumption.
  unfold fig_users_rows. intros H. apply filter_In in H. destruct H as [_ H].
  rewrite Hu in H. discriminate.
Qed.

Lemma chart_drops_a_user_named_total_witness :
  exists r, In r (users_sorted user_named_total) /\ u_user r = "Total" /\
            ~ In r (fig_users_rows user_named_total).
Proof.
  apply (chart_drops_a_user_named_total user_named_total).
  cbn. now left.
Defined.

(** *** The tokens table and the order of the records *)

Lemma sorted_keys_unique (l1 l2 : list string) :
  StronglySorted key_lt l1 -> StronglySorted key_lt l2 ->
  (forall k, In k l1 <-> In k l2) -> l1 = l2.
Proof.
  intros H1. revert l2. induction H1 as [|a l1 Hs1 IH Ha]; intros l2 H2 Hsame.
  - destruct l2 as [|b l2]; [reflexivity|].
    exfalso. apply (proj2 (Hsame b)). now left.
  - destruct H2 as [|b l2 Hs2 Hb].
    + exfalso. apply (proj1 (Hsame a)). now left.
    + rewrite Forall_forall in Ha, Hb.
      assert (Hirr : forall k, ~ key_lt k k).
      { intros k H. unfold key_lt in H. rewrite StringOrder.compare_refl in H.
        discriminate. }
      assert (Hab : a = b).
      { destruct (proj1 (Hsame a) (or_introl eq_refl)) as [E|Hin]; [now symmetry|].
        destruct (proj2 (Hsame b) (or_introl eq_refl)) as [E|Hin']; [assumption|].
        exfalso. apply (Hirr a).
        eapply StringOrder.compare_lt_trans; [apply Ha, Hin'|apply Hb, Hin]. }
      subst b. f_equal. apply IH; [assumption|].
      intros k. split; intros Hk.
      * destruct (proj1 (Hsame k) (or_intror Hk)) as [E|Hin]; [|assumption].
        subst k. exfalso. apply (Hirr a). now apply Ha.
      * destruct (proj2 (Hsame k) (or_intror Hk)) as [E|Hin]; [|assumption].
        subst k. exfalso. apply (Hirr a). now apply Hb.
Qed.

Section Reorder.
Context {A : Type} (key : A -> string).

Lemma group_keys_perm (data data' : list A) :
  Permutation data data' -> group_keys key data = group_keys key data'.
Proof.
  intros Hperm. apply sorted_keys_unique; try apply group_keys_sorted.
  intros k. rewrite !group_keys_in. split; intros H.
  - eapply Permutation_in; [apply Permutation_map, Hperm|exact H].
  - eapply Permutation_in; [apply Permutation_map, Permutation_sym, Hperm|exact H].
Qed.

Lemma group_perm (data data' : list A) (k : string) :
  Permutation data data' -> Permutation (group key data k) (group key data' k).
Proof.
  unfold group.
  induction 1 as [|x l l' _ IH|x y l|l l' l'' _ IH1 _ IH2]; cbn.
  - constructor.
  - destruct (String.eqb (key x) k); [now constructor|assumption].
  - destruct (String.eqb (key x) k), (String.eqb (key y) k);
      try reflexivity. apply perm_swap.
  - now transitivity (filter (fun r => String.eqb (key r) k) l').
Qed.

End Reorder.

(** X12: the table of tokens per model does not depend on the order of the
    records. *)
Theorem tokens_table_ignores_record_order (data data' : list NormalizedRecord) :
  Permutation data data' ->
  data_models_tokens data = data_models_tokens data'.
Proof.
  intros Hperm. unfold data_models_tokens, models_tokens_with, groupby_sum.
  rewrite (group_keys_perm model data data' Hperm).
  do 2 f_equal. apply map_ext. intros k. f_equal.
  apply int_sum_perm, Permutation_map, group_perm, Hperm.
Qed.

Lemma tokens_table_ignores_record_order_witness :
  data_models_tokens two_records = data_models_tokens two_records_swapped.
Proof.
  apply (tokens_table_ignores_record_order two_records two_records_swapped).
  apply perm_swap.
Defined.

(** *** The tokens table when nothing is cut off *)

Lemma exact_sum_filter_bounds {A} (f : A -> Z) (p : A -> bool) (l : list A) :
  forallb (fun a => 0 <=? f a) l = true ->
  0 <= exact_sum (map f (filter p l)) <= exact_sum (map f l).
Proof.
  induction l as [|a l IH]; cbn [forallb filter map]; [intros _; cbn; lia|].
  rewrite andb_true_iff, Z.leb_le. intros [Ha Hl]. specialize (IH Hl).
  destruct (p a); cbn [map]; rewrite !exact_sum_cons; lia.
Qed.

Lemma int_sum_exact (l : list Z) :
  0 <= exact_sum l -> exact_sum l < 2 ^ 63 -> int_sum l = exact_sum l.
Proof.
  intros Hlo Hhi. rewrite int_sum_wrap, sum64_wrap64. apply wrap64_small.
  unfold Normalize.in_int64, Normalize.int64_min, Normalize.int64_max.
  rewrite andb_true_iff, !Z.leb_le. powers. lia.
Qed.

(** X13: with ten distinct models or fewer, token counts that are not
    negative and a total below [2^63], nothing is cut off from the tokens
    table, whatever the sort does with ties: every model has its row,
    once, and the sums of the table add up to the tokens of all the
    records. *)
Theorem tokens_table_adds_up (sort_by : sorter) (data : list NormalizedRecord) :
  sorts sort_by ->
  (List.length (group_keys model data) <= 10)%nat ->
  forallb (fun r => 0 <=? total_tokens r) data = true ->
  exact_sum (map total_tokens data) < 2 ^ 63 ->
  NoDup (map fst (models_tokens_with sort_by data)) /\
  (forall m, In m (map fst (models_tokens_with sort_by data)) <->
             In m (map model data)) /\
  exact_sum (map snd (models_tokens_with sort_by data)) =
  exact_sum (map total_tokens data).
Proof.
  intros Hsort Hlen Hpos Hfit. unfold models_tokens_with, head.
  set (G := groupby_sum model (fun g => int_sum (map total_tokens g)) data).
  destruct (Hsort _ _ snd no_na Z.leb G) as [Hperm _].
  assert (HG : List.length G = List.length (group_keys model data)).
  { unfold G, groupby_sum. apply length_map. }
  rewrite firstn_all2 by (rewrite <- (Permutation_length Hperm); lia).
  assert (Hkeys : map fst G = group_keys model data) by apply groupby_sum_keys.
  repeat split.
  - eapply Permutation_NoDup; [apply Permutation_map, Hperm|].
    rewrite Hkeys. apply group_keys_nodup.
  - intros Hm. apply group_keys_in. rewrite <- Hkeys.
    eapply Permutation_in; [apply Permutation_map, Permutation_sym, Hperm|exact Hm].
  - intros Hm. apply group_keys_in in Hm. rewrite <- Hkeys in Hm.
    eapply Permutation_in; [apply Permutation_map, Hperm|exact Hm].
  - rewrite <- (exact_sum_perm _ _ (Permutation_map snd Hperm)).
    unfold G, groupby_sum. rewrite map_map. cbn [snd].
    rewrite (map_ext _ (fun k => exact_sum (map total_tokens (group model data k)))).
    + apply exact_sum_groups.
      * apply group_keys_nodup.
      * intros r Hr. apply group_keys_in. now apply in_map.
    + intros k. unfold group.
      pose proof (exact_sum_filter_bounds total_tokens
                    (fun r => String.eqb (model r) k) data Hpos) as Hb.
      apply int_sum_exact; lia.
Qed.

Lemma tokens_table_adds_up_witness :
  NoDup (map fst (models_tokens_with stable_sort two_records)) /\
  (forall m, In m (map fst (models_tokens_with stable_sort two_records)) <->
             In m (map model two_records)) /\
  exact_sum (map snd (models_tokens_with stable_sort two_records)) =
  exact_sum (map total_tokens two_records).
Proof.
  apply (tokens_table_adds_up stable_sort two_records).
  - exact stable_sort_sorts.
  - cbn. lia.
  - reflexivity.
  - reflexivity.
Defined.

End FrameExtras.

(* ================================================================== *)
(** ** [main]: the file of a month, and when the charts are drawn *)

Module MainExtras.
Import Main.

Example path_of_march : path_of 2024 3 = "/data/costs-2024-3.json".
Proof. reflexivity. Qed.

(** *** The path *)

Lemma to_int_proper (z : Z) : Z.to_int z <> Decimal.Pos Decimal.Nil /\
                              Z.to_int z <> Decimal.Neg Decimal.Nil.
Proof.
  destruct z as [|p|p]; cbn; split; try discriminate;
    intros H; inversion H as [E]; now apply (Unsigned.to_uint_nonnil p).
Qed.

Lemma str_of_int_inj (a b : Z) : str_of_int a = str_of_int b -> a = b.
Proof.
  unfold str_of_int. intros H.
  destruct (to_int_proper a) as [Ha1 Ha2], (to_int_proper b) as [Hb1 Hb2].
  assert (E : Some (Z.to_int a) = Some (Z.to_int b)).
  { rewrite <- (NilZero.isi _ Ha1 Ha2), <- (NilZero.isi _ Hb1 Hb2). now rewrite H. }
  inversion E as [E']. rewrite <- (DecimalZ.of_to a), <- (DecimalZ.of_to b).
  now rewrite E'.
Qed.

Lemma digits_have_no_other_char (c : ascii) (d : Decimal.uint) :
  has_char c "0123456789" = false ->
  has_char c (NilEmpty.string_of_uint d) = false.
Proof.
  intros Hc. cbn in Hc. repeat (apply orb_false_iff in Hc; destruct Hc as [? Hc]).
  induction d; cbn; rewrite ?IHd; try reflexivity;
    apply orb_false_iff; split; (assumption || reflexivity).
Qed.

Lemma str_of_int_no_char (c : ascii) (z : Z) :
  has_char c "-0123456789" = false -> has_char c (str_of_int z) = false.
Proof.
  intros Hc. cbn [has_char] in Hc. apply orb_false_iff in Hc. destruct Hc as [Hm Hd].
  assert (Hu : forall d, has_char c (NilZero.string_of_uint d) = false).
  { intros d. unfold NilZero.string_of_uint.
    destruct d; try (now apply digits_have_no_other_char).
    cbn in Hd |- *. apply orb_false_iff in Hd. destruct Hd as [-> _]. reflexivity. }
  unfold str_of_int. destruct (Z.to_int z); cbn [NilZero.string_of_int has_char].
  - apply Hu.
  - now rewrite Hm, Hu.
Qed.

Lemma str_of_int_no_minus (z : Z) : 0 <= z -> has_char "-" (str_of_int z) = false.
Proof.
  intros Hz. unfold str_of_int.
  destruct z as [|p|p]; [reflexivity| |lia].
  cbn [Z.to_int NilZero.string_of_int]. unfold NilZero.string_of_uint.
  pose proof (Unsigned.to_uint_nonnil p) as Hn.
  destruct (Pos.to_uint p) eqn:E; try congruence;
    rewrite <- E; now apply digits_have_no_other_char.
Qed.

Lemma split_at_char (c : ascii) (s1 s2 t1 t2 : string) :
  has_char c s1 = false -> has_char c s2 = false ->
  String.append s1 (String c t1) = String.append s2 (String c t2) ->
  s1 = s2 /\ t1 = t2.
Proof.
  revert s2. induction s1 as [|a s1 IH]; intros [|b s2]; cbn; intros H1 H2 E.
  - inversion E. now split.
  - inversion E; subst. rewrite Ascii.eqb_refl in H2. discriminate.
  - inversion E; subst. rewrite Ascii.eqb_refl in H1. discriminate.
  - apply orb_false_iff in H1, H2. destruct H1 as [_ H1], H2 as [_ H2].
    inversion E; subst. destruct (IH s2 H1 H2 ltac:(assumption)) as [-> ->].
    now split.
Qed.

(** X14: two selections look up the same file only if they are the same
    year and the same month: the name holds both numbers in full. *)
Theorem one_file_per_year_and_month (year month year' month' : Z) :
  0 <= year -> 0 <= year' ->
  path_of year month = path_of year' month' ->
  year = year' /\ month = month'.
Proof.
  intros Hy Hy' E. unfold path_of in E. cbn [String.append] in E.
  repeat (injection E as E).
  apply split_at_char in E; try now apply str_of_int_no_minus.
  destruct E as [Ey Em]. split; [now apply str_of_int_inj|].
  change ".json" with (String "." "json") in Em.
  apply split_at_char in Em; try (apply str_of_int_no_char; reflexivity).
  now apply str_of_int_inj.
Qed.

Lemma one_file_per_year_and_month_witness : 2024 = 2024 /\ 3 = 3.
Proof.
  apply (one_file_per_year_and_month 2024 3 2024 3); [lia | lia | reflexivity].
Defined.

(** *** When [plot_data] is called *)

Lemma not_shown_by (frame : Normalize.DataFrame) (l : list St.call) :
  ~ In (plot_data_on frame) (map shown_by l).
Proof.
  intros H. apply in_map_iff in H. destruct H as (c & E & _). discriminate.
Qed.

Lemma no_plot (frame : Normalize.DataFrame) (l : list St.call) :
  ~ In (plot_data_on frame) ([title; divider; info_intro] ++ map shown_by l).
Proof.
  intros H. apply in_app_iff in H. destruct H as [H|H].
  - cbn in H. intuition discriminate.
  - now apply not_shown_by in H.
Qed.

Lemma with_plot (frame frame' : Normalize.DataFrame) (l1 l2 : list St.call) :
  In (plot_data_on frame)
     ([title; divider; info_intro] ++ map shown_by l1 ++ map shown_by l2
        ++ [plot_data_on frame']) <-> frame = frame'.
Proof.
  rewrite !in_app_iff. split.
  - intros [H|[H|[H|H]]].
    + cbn in H. intuition discriminate.
    + now apply not_shown_by in H.
    + now apply not_shown_by in H.
    + destruct H as [E|[]]. now inversion E.
  - intros ->. right. right. right. now left.
Qed.

(** X15: [main] calls [plot_data] exactly when a month other than 0 is
    chosen, the file of that month exists, [json.load] returns a value
    other than [None], and [process_data] returns; the frame it passes is
    the one [process_data] returned. *)
Theorem plot_data_called_iff (month year : Z) (path_exists : string -> bool)
  (json_load : string -> result pyval) (frame : Normalize.DataFrame) :
  (exists events,
     main month year path_exists json_load = inr events /\
     In (plot_data_on frame) events) <->
  month <> 0 /\
  path_exists (path_of year month) = true /\
  exists data shown,
    json_load (path_of year month) = inr data /\ data <> PNone /\
    Normalize.process_data data = inr (frame, shown).
Proof.
  unfold main. destruct (Z.eqb_spec month 0) as [->|Hm].
  { split.
    - intros (events & E & Hin). inversion E; subst.
      exfalso. exact (no_plot frame [] Hin).
    - intros [H _]. congruence. }
  destruct (path_exists (path_of year month)); cbn [negb].
  2:{ split.
      - intros (events & E & Hin). inversion E; subst. cbn in Hin.
        intuition discriminate.
      - intros (_ & H & _). discriminate. }
  destruct (json_load (path_of year month)) as [e|data] eqn:Hload.
  { split.
    - intros (events & E & Hin). destruct e; cbn in E; try discriminate.
      inversion E; subst. exfalso.
      exact (no_plot frame [St.error_invalid_json] Hin).
    - intros (_ & _ & data & shown & H & _). discriminate. }
  cbn [Loader.load_data bind ret].
  destruct (is_none data) eqn:Hnone.
  { split.
    - intros (events & E & Hin). inversion E; subst.
      exfalso. exact (no_plot frame [] Hin).
    - intros (_ & _ & data' & shown & H & Hn & _). inversion H; subst.
      destruct data'; try discriminate. congruence. }
  destruct (Normalize.process_data data) as [e|[frame' shown2]] eqn:Hp; cbn [bind].
  { split.
    - intros (events & E & _). discriminate.
    - intros (_ & _ & data' & shown & H & _ & Hp'). inversion H; subst. congruence. }
  split.
  - intros (events & E & Hin). inversion E; subst.
    apply (proj1 (with_plot frame frame' [] shown2)) in Hin. subst frame'.
    repeat split; try assumption. exists data, shown2.
    repeat split; try assumption. intros ->. discriminate.
  - intros (_ & _ & data' & shown & H & _ & Hp'). inversion H; subst.
    rewrite Hp in Hp'. inversion Hp'; subst.
    eexists. split; [reflexivity|]. now apply (proj2 (with_plot frame frame [] shown)).
Qed.

Lemma plot_data_called_iff_witness :
  exists events,
    main 3 2024 only_march march_document = inr events /\
    In (plot_data_on
          [ {| Normalize.model := PStr "gpt-4"; Normalize.total_cost := PFloat 1.5;
               Normalize.user := PStr "a@x.com"; Normalize.total_tokens := PInt 150 |};
            Extra.row_b ]) events.
Proof.
  apply (plot_data_called_iff 3 2024 only_march march_document).
  split; [lia|]. split; [reflexivity|].
  exists (PDict Examples.two_users), [].
  split; [reflexivity|]. split; [discriminate|reflexivity].
Defined.

End MainExtras.
